(** * mcssh: the terminal line editor (server.py) and the console relay (mc.py)

    A shallow embedding of the parts of the two Python modules that the
    specification talks about, followed by the properties checked against
    them.  Python objects become records, attribute mutation becomes
    explicit state passing, calls into collaborators (the websocket, the SSH
    channel, files, the logger) are recorded as a trace of events, and
    exceptions are explicit outcomes. *)

From Stdlib Require Import List String Ascii ZArith Bool Lia QArith Arith.
From Stdlib Require Import DecimalString.
Import ListNotations.
Close Scope Q_scope.

Set Implicit Arguments.

(** ** Python built-ins used by the two modules *)

Module Py.

(** Python [str] values are modelled as Rocq strings, one [ascii] per
    character: the keys a session decodes are single bytes below 128 or
    escape sequences made of such bytes. *)
Definition str := string.

Definition empty : str := EmptyString.

Definition chr (n : nat) : str := String (ascii_of_nat n) EmptyString.

Definition ESC : str := chr 27.
Definition NL : str := chr 10.

Inductive exn :=
| IndexError
| KeyError
| ValueError
| AttributeError
| JSONDecodeError.

(** How a call ends: with a value, by [exit(0)], or with an exception. *)
Inductive res (A : Type) :=
| Val (a : A)
| Exit
| Raise (e : exn).
Arguments Exit {A}.
Arguments Raise {A} e.

(** [len(s)] *)
Definition len (s : str) : nat := String.length s.

(** [s.startswith(p)] *)
Definition startswith (s p : str) : bool := String.prefix p s.

(** [sep.join(l)] *)
Definition join (sep : str) (l : list str) : str := String.concat sep l.

(** [list(s)]: one one-character string per character. *)
Fixpoint list_of_str (s : str) : list str :=
  match s with
  | EmptyString => []
  | String c r => String c EmptyString :: list_of_str r
  end.

(** [s[n:]] for [n >= 0]. *)
Fixpoint drop_str (n : nat) (s : str) : str :=
  match n, s with
  | O, _ => s
  | S _, EmptyString => EmptyString
  | S m, String _ r => drop_str m r
  end.

(** [c.isspace()] on the characters representable here. *)
Definition isspace (c : ascii) : bool :=
  let n := nat_of_ascii c in
  ((9 <=? n) && (n <=? 13)) || ((28 <=? n) && (n <=? 32))
  || (n =? 133) || (n =? 160).

Fixpoint lstrip (s : str) : str :=
  match s with
  | EmptyString => EmptyString
  | String c r => if isspace c then lstrip r else s
  end.

Fixpoint rstrip (s : str) : str :=
  match s with
  | EmptyString => EmptyString
  | String c r =>
      match rstrip r with
      | EmptyString => if isspace c then EmptyString else String c EmptyString
      | r' => String c r'
      end
  end.

(** [s.strip()] *)
Definition strip (s : str) : str := rstrip (lstrip s).

(** [s.removeprefix(p)] *)
Definition removeprefix (p s : str) : str :=
  if String.prefix p s then drop_str (len p) s else s.

(** [s.split(sep)] for a one-character separator: never the empty list. *)
Fixpoint split (sep : ascii) (s : str) : list str :=
  match s with
  | EmptyString => [EmptyString]
  | String c r =>
      if Ascii.eqb c sep then EmptyString :: split sep r
      else match split sep r with
           | [] => [String c EmptyString]
           | w :: ws => String c w :: ws
           end
  end.

(** [str(n)] for an integer. *)
Definition str_of_int (n : Z) : str := NilZero.string_of_int (Z.to_int n).

(** [x in l] for a list of strings. *)
Definition str_in (x : str) (l : list str) : bool :=
  existsb (String.eqb x) l.

Section Lists.
Variable A : Type.

(** The position a (possibly negative) subscript denotes, or [None]
    when Python raises [IndexError]. *)
Definition norm_index (l : list A) (i : Z) : option nat :=
  let n := Z.of_nat (List.length l) in
  let j := if (i <? 0)%Z then (i + n)%Z else i in
  if ((j <? 0) || (n <=? j))%Z then None else Some (Z.to_nat j).

(** [l[i]] *)
Definition index (l : list A) (i : Z) : option A :=
  match norm_index l i with
  | Some j => nth_error l j
  | None => None
  end.

(** [l.pop(i)], keeping only the remaining list. *)
Definition pop (l : list A) (i : Z) : option (list A) :=
  match norm_index l i with
  | Some j => Some (firstn j l ++ skipn (S j) l)
  | None => None
  end.

(** [l.insert(i, x)]: out-of-range positions are clipped, never an
    error. *)
Definition insert (l : list A) (i : Z) (x : A) : list A :=
  let n := Z.of_nat (List.length l) in
  let j := if (i <? 0)%Z then Z.max 0 (i + n) else Z.min i n in
  firstn (Z.to_nat j) l ++ x :: skipn (Z.to_nat j) l.

(** [l.remove(x)]: the first element equal to [x] goes; [None] stands
    for the [ValueError] raised when there is none. *)
Fixpoint remove (eqb : A -> A -> bool) (x : A) (l : list A) : option (list A) :=
  match l with
  | [] => None
  | y :: r =>
      if eqb x y then Some r
      else match remove eqb x r with
           | Some r' => Some (y :: r')
           | None => None
           end
  end.

(** [l[1:]] *)
Definition from1 (l : list A) : list A := tl l.

(** [l[-1]] with a default for the empty list. *)
Definition last_or (l : list A) (d : A) : A := List.last l d.
End Lists.

(** [s[:n]] for [n >= 0]. *)
Fixpoint take_str (n : nat) (s : str) : str :=
  match n, s with
  | O, _ => EmptyString
  | S _, EmptyString => EmptyString
  | S m, String c r => String c (take_str m r)
  end.

(** The number of characters a slice bound [w] stands for in a string of
    length [n]: a negative bound counts from the end, and every bound is
    clipped to the string. *)
Definition slice_bound (n : nat) (w : Z) : nat :=
  Z.to_nat (if (w <? 0)%Z then Z.max 0 (w + Z.of_nat n) else Z.min w (Z.of_nat n)).

(** [s[:w]] *)
Definition slice_to (s : str) (w : Z) : str := take_str (slice_bound (len s) w) s.

(** [s[w:]] *)
Definition slice_from (s : str) (w : Z) : str := drop_str (slice_bound (len s) w) s.

(** [' ' * n]: empty for [n <= 0]. *)
Definition spaces (n : Z) : str :=
  String.concat EmptyString (repeat (String " " EmptyString) (Z.to_nat n)).

(** [c in s] for one character (or one byte of a [bytes] value). *)
Fixpoint has_char (c : ascii) (s : str) : bool :=
  match s with
  | EmptyString => false
  | String d r => Ascii.eqb c d || has_char c r
  end.

Definition newline : ascii := ascii_of_nat 10.

Definition carriage_return : ascii := ascii_of_nat 13.

(** What reading gives for the characters held by a file opened in text
    mode (universal newlines): a carriage return, together with the line
    feed that follows it if there is one, is read as one line feed. *)
Fixpoint universal_newlines (s : str) : str :=
  match s with
  | EmptyString => EmptyString
  | String c r =>
      if Ascii.eqb c carriage_return then
        match r with
        | String d r' =>
            if Ascii.eqb d newline then String newline (universal_newlines r')
            else String newline (universal_newlines r)
        | EmptyString => String newline EmptyString
        end
      else String c (universal_newlines r)
  end.

(** [s[-1]], when [s] is not empty. *)
Fixpoint last_char (s : str) : option ascii :=
  match s with
  | EmptyString => None
  | String c r =>
      match r with
      | EmptyString => Some c
      | String _ _ => last_char r
      end
  end.

(** The characters of a string. *)
Definition chars (s : str) : list ascii := list_ascii_of_string s.

End Py.

(** ** server.py: one terminal session *)

Module Server.
Import Py.
Local Open Scope string_scope.

(** The attributes of [SSHServer] the line editor works on.  [buffer] is
    a Python list of strings (usually one character each); [height] is
    set by the pty request. *)
Record SSHServer := mkSSHServer {
  buffer : list str;
  history : list str;
  position : Z;
  selected : Z;
  selected_suffix : Z;
  filter : str;
  height : Z
}.

(** What a session reads from its relay: [ws.known_commands], and the
    list of names [ws.players] evaluates to.  The roster call behind
    [ws.players] is modelled in [Mc.get_online_players]; this module
    follows a session all of whose reads of the roster return, and return
    the same list.  The reads that raise, or that differ from one another
    while one key is handled, are followed in [Live] below, read by
    read. *)
Record relay_view := mkView {
  known_commands : list str;
  players : list str
}.

(** Calls that leave the session object. *)
Inductive event :=
| WsSend (m : str)                         (* self.ws.send(m) *)
| ClientSend (data : str) (durable : bool) (* self.send_to_client(data, server) *)
| TruncateLog                              (* log.txt reopened in "wb" mode *)
| SaveHistory (text : str)                 (* history.txt rewritten with text *)
| Log (line : str)                         (* log(line) *)
| RestartService                           (* Popen(systemctl restart) *)
| CloseSession.                            (* self.close() *)

(** A method: the session before, the session after, the calls made and
    the way it ended. *)
Definition M (A : Type) : Type := SSHServer -> SSHServer * list event * res A.

Definition ret {A} (a : A) : M A := fun s => (s, [], Val a).

Definition bind {A B} (c : M A) (k : A -> M B) : M B :=
  fun s =>
    match c s with
    | (s1, ev1, Val a) =>
        match k a s1 with (s2, ev2, r) => (s2, (ev1 ++ ev2)%list, r) end
    | (s1, ev1, Exit) => (s1, ev1, Exit)
    | (s1, ev1, Raise e) => (s1, ev1, Raise e)
    end.

Notation "x <- c ;; k" := (bind c (fun x => k))
  (at level 61, c at next level, right associativity).
Notation "c ;; k" := (bind c (fun _ => k))
  (at level 61, right associativity).

Definition get : M SSHServer := fun s => (s, [], Val s).
Definition modify (f : SSHServer -> SSHServer) : M unit := fun s => (f s, [], Val tt).
Definition emit (e : event) : M unit := fun s => (s, [e], Val tt).
Definition raise {A} (e : exn) : M A := fun s => (s, [], Raise e).
Definition exit {A} : M A := fun s => (s, [], Exit).
Definition when (b : bool) (c : M unit) : M unit := if b then c else ret tt.

Definition set_buffer (b : list str) (s : SSHServer) : SSHServer :=
  mkSSHServer b (history s) (position s) (selected s) (selected_suffix s)
              (filter s) (height s).
Definition set_history (h : list str) (s : SSHServer) : SSHServer :=
  mkSSHServer (buffer s) h (position s) (selected s) (selected_suffix s)
              (filter s) (height s).
Definition set_position (p : Z) (s : SSHServer) : SSHServer :=
  mkSSHServer (buffer s) (history s) p (selected s) (selected_suffix s)
              (filter s) (height s).
Definition set_selected (n : Z) (s : SSHServer) : SSHServer :=
  mkSSHServer (buffer s) (history s) (position s) n (selected_suffix s)
              (filter s) (height s).
Definition set_selected_suffix (n : Z) (s : SSHServer) : SSHServer :=
  mkSSHServer (buffer s) (history s) (position s) (selected s) n
              (filter s) (height s).
Definition set_filter (f : str) (s : SSHServer) : SSHServer :=
  mkSSHServer (buffer s) (history s) (position s) (selected s)
              (selected_suffix s) f (height s).

(** [__init__] followed by a pty request of the given height: empty
    buffer, history holding only the empty sentinel. *)
Definition init (h : Z) : SSHServer := mkSSHServer [] [empty] 0 0 0 empty h.

(** [buffer_str] *)
Definition buffer_str (s : SSHServer) : str := join empty (buffer s).

(** [is_command_complete] *)
Definition is_command_complete (v : relay_view) (s : SSHServer) : bool :=
  str_in (removeprefix "/" (strip (buffer_str s))) (known_commands v).

(** [add_history]: the list update.  [history[1]] on an empty list is an
    [IndexError]. *)
Definition add_history_list (h : list str) (cmd : str) : option (list str) :=
  match h with
  | [] => None
  | [_] => Some (cmd :: h)
  | _ :: x :: _ => Some (if String.eqb x cmd then h else cmd :: h)
  end.

(** [add_history]: update, then rewrite history.txt with [history[1:]]. *)
Definition add_history (cmd : str) : M unit :=
  s <- get ;;
  match add_history_list (history s) cmd with
  | None => raise IndexError
  | Some h =>
      modify (set_history h) ;;
      emit (SaveHistory (join NL (from1 h)))
  end.

(** [player_suggestions] *)
Definition player_suggestions (v : relay_view) (s : SSHServer) : list str :=
  let words := split " " (filter s) in
  if Nat.eqb (len (filter s)) 0 || Nat.eqb (len (hd empty words)) 0 then []
  else if Nat.eqb (List.length words) 1 && is_command_complete v s then players v
  else
    let w := last_or words empty in
    map (fun player => buffer_str s ++ drop_str (len w) player)
        (List.filter (fun player => startswith player w) (players v)).

(** The comprehension
    [[filtered[i] for i in range(len(filtered)) if i == 0 or filtered[i] != filtered[i-1]]]. *)
Definition keep_at (filtered : list str) (i : nat) : list str :=
  match nth_error filtered i with
  | None => []
  | Some x =>
      if Nat.eqb i 0 then [x]
      else match nth_error filtered (i - 1) with
           | Some y => if String.eqb x y then [] else [x]
           | None => [x]
           end
  end.

Definition collapse_adjacent (filtered : list str) : list str :=
  flat_map (keep_at filtered) (seq 0 (List.length filtered)).

(** The candidates before filtering. *)
Definition candidate_pool (v : relay_view) (s : SSHServer) : list str :=
  (player_suggestions v s ++ history s ++ known_commands v)%list.

(** [filtered_history] *)
Definition filtered_history (v : relay_view) (s : SSHServer) : list str :=
  let filtered :=
    List.filter (fun cmd => startswith cmd (filter s)) (candidate_pool v s) in
  filter s :: collapse_adjacent filtered.

(** Subscripting that raises [IndexError] out of range. *)
Definition subscript (l : list str) (i : Z) : M str :=
  match index l i with
  | Some x => ret x
  | None => raise IndexError
  end.

(** [selection] (the definition in force, the later one in the class). *)
Definition selection (v : relay_view) : M str :=
  s <- get ;;
  if Nat.eqb (List.length (filtered_history v s)) 0 then ret (filter s)
  else
    when (Z.of_nat (List.length (filtered_history v s)) <=? selected s)%Z
         (modify (set_selected 0)) ;;
    s1 <- get ;;
    subscript (filtered_history v s1) (selected s1).

(** [suffix_selection] (the definition in force, the later one in the
    class): the reset compares against [len(self.filtered_history)]. *)
Definition suffix_selection (v : relay_view) : M str :=
  s <- get ;;
  if Nat.eqb (List.length (from1 (filtered_history v s))) 0 then ret empty
  else
    when (Z.of_nat (List.length (filtered_history v s)) <=? selected_suffix s)%Z
         (modify (set_selected_suffix 0)) ;;
    s1 <- get ;;
    subscript (from1 (filtered_history v s1)) (selected_suffix s1).

(** The earlier [suffix_selection] of the class body, overridden by the
    one above: the reset compares against [len(self.filtered_history[1:])]. *)
Definition suffix_selection_shadowed (v : relay_view) : M str :=
  s <- get ;;
  if Nat.eqb (List.length (from1 (filtered_history v s))) 0 then ret empty
  else
    when (Z.of_nat (List.length (from1 (filtered_history v s))) <=? selected_suffix s)%Z
         (modify (set_selected_suffix 0)) ;;
    s1 <- get ;;
    subscript (from1 (filtered_history v s1)) (selected_suffix s1).

(** [suffix] *)
Definition suffix (v : relay_view) : M str :=
  s <- get ;;
  if Nat.eqb (len (filter s)) 0 then ret empty
  else
    sel <- suffix_selection v ;;
    ret (drop_str (len (filter s)) sel).

(** [is_valid_command] of the relay. *)
Definition is_valid_command (v : relay_view) (c : str) : bool :=
  str_in c (known_commands v).

Definition first_char_is (c : ascii) (s : str) : bool :=
  match s with
  | String d _ => Ascii.eqb c d
  | EmptyString => false
  end.

Definition map_first (f : str -> str) (l : list str) : list str :=
  match l with
  | [] => []
  | x :: r => f x :: r
  end.

Definition map_last (f : str -> str) (l : list str) : list str :=
  rev (map_first f (rev l)).

Definition SGR (code : str) : str := ESC ++ "[" ++ code ++ "m".

(** [buffer_formatted] *)
Definition buffer_formatted (v : relay_view) (s : SSHServer) : str :=
  if Nat.eqb (List.length (buffer s)) 0 then empty
  else
    let parts := split " " (buffer_str s) in
    let p0 := hd empty parts in
    let parts' :=
      if negb (Nat.eqb (len p0) 0) && first_char_is "!" p0 then
        map_last (fun p => p ++ SGR "0") (map_first (fun p => SGR "1;36" ++ p) parts)
      else if str_in (strip p0) ["exit"; "clear"; "reload"; "cls"; "reset"] then
        map_first (fun p => SGR "1;34" ++ p ++ SGR "0") parts
      else if is_valid_command v p0
              || (is_valid_command v (drop_str 1 p0) && first_char_is "!" p0) then
        map_first (fun p => SGR "1;32" ++ p ++ SGR "0") parts
      else
        map_first (fun p => SGR "1;31" ++ p ++ SGR "0") parts in
    join " " parts'.

(** [send_to_client] *)
Definition send_to_client (data : str) (durable : bool) : M unit :=
  emit (ClientSend data durable).

Definition cursor_to (row col : Z) : str :=
  ESC ++ "[" ++ str_of_int row ++ ";" ++ str_of_int col ++ "H".

(** [redraw_buffer] (the definition in force). *)
Definition redraw_buffer (v : relay_view) : M unit :=
  send_to_client (ESC ++ "[2K") false ;;
  s <- get ;;
  send_to_client (cursor_to (height s) 1 ++ "> " ++ buffer_formatted v s) false ;;
  send_to_client (cursor_to (height s) (Z.of_nat (len (buffer_str s)) + 3)) false ;;
  sfx <- suffix v ;;
  send_to_client (SGR "30" ++ sfx ++ SGR "0") false ;;
  s1 <- get ;;
  send_to_client (cursor_to (height s1) (position s1 + 3)) false.

(** [update_filter] *)
Definition update_filter : M unit :=
  s <- get ;; modify (set_filter (buffer_str s)).

(** [accept_completion] *)
Definition accept_completion (v : relay_view) : M unit :=
  sel <- suffix_selection v ;;
  modify (set_buffer (list_of_str sel)) ;;
  update_filter ;;
  s <- get ;;
  modify (set_position (Z.of_nat (List.length (buffer s)))) ;;
  redraw_buffer v.

(** [close] of a session the relay still has among its subscribers: the
    channel is closed and the session unsubscribes.  (Once the relay has
    dropped the session, [ws.unsubscribe] raises [ValueError] out of
    [close]; a session in that state is not followed here.) *)
Definition close : M unit := emit CloseSession.

(** [send_command] *)
Definition send_command : M unit :=
  s <- get ;;
  if Nat.eqb (List.length (buffer s)) 0 then ret tt
  else
    add_history (buffer_str s) ;;
    when (String.eqb (buffer_str s) "reload")
         (modify (set_buffer (list_of_str "reload confirm"))) ;;
    s1 <- get ;;
    (if String.eqb (buffer_str s1) "exit" then
       close ;; exit
     else if str_in (buffer_str s1) ["clear"; "cls"] then
       send_to_client (ESC ++ "[2J") false ;;
       modify (set_buffer []) ;;
       modify (set_position 0) ;;
       emit TruncateLog ;;
       emit (Log "[*] Cleared log")
     else if String.eqb (buffer_str s1) "reset" then
       emit RestartService ;;
       emit (Log "[*] Restarting server")
     else
       match strip (buffer_str s1) with
       | EmptyString => raise IndexError
       | String c _ =>
           if Ascii.eqb c "!" then
             emit (WsSend ("/broadcast " ++ join empty (from1 (buffer s1)))) ;;
             emit (Log ("[*] Sent broadcast: " ++ join empty (from1 (buffer s1))))
           else
             emit (WsSend (buffer_str s1)) ;;
             emit (Log ("[*] Sent command: " ++ buffer_str s1))
       end) ;;
    modify (set_buffer []) ;;
    modify (set_position 0) ;;
    modify (set_selected 0) ;;
    modify (set_selected_suffix 0) ;;
    send_to_client (ESC ++ "[2K") false.

(** [previous_command] *)
Definition previous_command (v : relay_view) : M unit :=
  s <- get ;;
  if String.eqb (filter s) empty then
    modify (set_selected
              (Z.min (Z.of_nat (List.length (filtered_history v s)) - 1)
                     (selected s + 1))) ;;
    s1 <- get ;;
    x <- subscript (filtered_history v s1) (selected s1) ;;
    modify (set_buffer (list_of_str x)) ;;
    modify (set_position (Z.of_nat (List.length (list_of_str x))))
  else
    modify (set_selected_suffix
              (Z.min (Z.of_nat (List.length (filtered_history v s)) - 1)
                     (selected_suffix s + 1))).

(** [next_command] *)
Definition next_command (v : relay_view) : M unit :=
  s <- get ;;
  if (selected s =? 0)%Z && String.eqb (filter s) empty then
    modify (set_buffer []) ;;
    modify (set_position 0)
  else if String.eqb (filter s) empty then
    modify (set_selected (Z.max 0 (selected s - 1))) ;;
    s1 <- get ;;
    x <- subscript (filtered_history v s1) (selected s1) ;;
    modify (set_buffer (list_of_str x)) ;;
    modify (set_position (Z.of_nat (List.length (list_of_str x))))
  else
    modify (set_selected_suffix (Z.max 0 (selected_suffix s - 1))).

(** [self.buffer.pop(i)] *)
Definition buffer_pop (i : Z) : M unit :=
  s <- get ;;
  match pop (buffer s) i with
  | Some b => modify (set_buffer b)
  | None => raise IndexError
  end.

(** [backspace] *)
Definition backspace : M unit :=
  s <- get ;;
  if Nat.ltb 0 (List.length (buffer s)) then
    buffer_pop (position s - 1) ;;
    modify (set_position (position s - 1))
  else ret tt.

(** The branches of the [match data] of [input_handler]. *)
Definition key_return : str := chr 13.
Definition key_backspace : str := chr 127.
Definition key_interrupt : str := chr 3.
Definition key_up : str := ESC ++ "[A".
Definition key_down : str := ESC ++ "[B".
Definition key_left : str := ESC ++ "[D".
Definition key_right : str := ESC ++ "[C".
Definition key_tab : str := chr 9.
Definition key_delete : str := ESC ++ "[3~".

(** One iteration of the loop of [input_handler], after the bytes of one
    key have been assembled into [data]: dispatch, then redraw. *)
Definition input_handler_step (v : relay_view) (data : str) : M unit :=
  (if String.eqb data key_return then
     send_command ;; update_filter
   else if String.eqb data key_backspace then
     backspace ;; update_filter
   else if String.eqb data key_interrupt then
     s <- get ;;
     if Nat.ltb 0 (List.length (buffer s)) then
       modify (set_buffer []) ;; modify (set_position 0)
     else close ;; exit
   else if String.eqb data key_up then previous_command v
   else if String.eqb data key_down then next_command v
   else if String.eqb data key_left then
     s <- get ;;
     when (0 <? position s)%Z (modify (set_position (position s - 1)))
   else if String.eqb data key_right then
     s <- get ;;
     if (position s =? Z.of_nat (List.length (buffer s)))%Z then
       accept_completion v ;; update_filter
     else
       when (position s <? Z.of_nat (List.length (buffer s)))%Z
            (modify (set_position (position s + 1)))
   else if String.eqb data key_tab then
     accept_completion v ;; update_filter
   else if String.eqb data key_delete then
     s <- get ;;
     when (position s <? Z.of_nat (List.length (buffer s)))%Z
          (buffer_pop (position s)) ;;
     update_filter
   else
     s <- get ;;
     modify (set_buffer (insert (buffer s) (position s) data)) ;;
     modify (set_position (position s + 1)) ;;
     update_filter) ;;
  redraw_buffer v.

(** [load_history] when history.txt holds the characters [history_txt],
    [None] when it does not exist.  The file is opened in text mode, so
    what [f.read()] returns is the text with its line ends translated (the
    host is a Linux system, which the [systemctl] call of [send_command]
    takes for granted: what [add_history] writes is stored as it is). *)
Definition load_history (history_txt : option str) : M unit :=
  match history_txt with
  | Some text =>
      modify (set_history (split (ascii_of_nat 10) (universal_newlines text)))
  | None => ret tt
  end.

(** What [input_handler] does before its loop. *)
Definition input_handler_setup (history_txt : option str) : M unit :=
  modify (set_buffer []) ;;
  modify (set_position 0) ;;
  modify (set_selected 0) ;;
  load_history history_txt ;;
  send_to_client (ESC ++ "[2J") false ;;
  s <- get ;;
  send_to_client (cursor_to (height s) 1 ++ "> ") false.

(** The loop of [input_handler] over the keys received so far; it stops
    at the first key whose handling exits or raises. *)
Fixpoint input_handler_loop (v : relay_view) (keys : list str) : M unit :=
  match keys with
  | [] => ret tt
  | k :: rest => input_handler_step v k ;; input_handler_loop v rest
  end.

(** [input_handler] on the keys received so far. *)
Definition input_handler (v : relay_view) (history_txt : option str)
           (keys : list str) : M unit :=
  input_handler_setup history_txt ;; input_handler_loop v keys.

(** *** Observations used to state properties *)

(** The commands a trace forwards upstream. *)
Definition upstream (ev : list event) : list str :=
  flat_map (fun e => match e with WsSend m => [m] | _ => [] end) ev.

(** The cursor lies within [[0, len(buffer)]]. *)
Definition cursor_in_range (s : SSHServer) : Prop :=
  (0 <= position s <= Z.of_nat (List.length (buffer s)))%Z.

(** From session [s], [c] ends in a session satisfying [Q a] when it
    returns [a], and [E] when it exits or raises. *)
Definition wp {A} (c : M A) (Q : A -> SSHServer -> Prop) (E : SSHServer -> Prop)
           (s : SSHServer) : Prop :=
  match c s with
  | (s', _, Val a) => Q a s'
  | (s', _, _) => E s'
  end.

(** [s] shows the same line and cursor as [s0]. *)
Definition same_line (s0 s : SSHServer) : Prop :=
  buffer s = buffer s0 /\ position s = position s0.

(** [c] leaves the cursor within the buffer, however it ends. *)
Definition keeps_cursor {A} (c : M A) : Prop :=
  forall s, cursor_in_range s -> wp c (fun _ => cursor_in_range) cursor_in_range s.

(** [c] touches neither the buffer nor the cursor, however it ends. *)
Definition keeps_line {A} (c : M A) : Prop :=
  forall s, wp c (fun _ => same_line s) (same_line s) s.

(** A backspace key is harmless when the cursor is past the first column
    or the line is empty. *)
Definition safe_key (data : str) (s : SSHServer) : Prop :=
  data = key_backspace -> (0 < position s)%Z \/ buffer s = [].

(** No two neighbours of a list are equal. *)
Fixpoint adjacent_distinct (l : list str) : Prop :=
  match l with
  | x :: (y :: _) as r => x <> y /\ adjacent_distinct r
  | _ => True
  end.

(** [l1] is [l2] with some entries left out, order kept. *)
Inductive subseq : list str -> list str -> Prop :=
| subseq_nil : subseq [] []
| subseq_skip x l1 l2 : subseq l1 l2 -> subseq l1 (x :: l2)
| subseq_keep x l1 l2 : subseq l1 l2 -> subseq (x :: l1) (x :: l2).

(** Dropping every entry equal to the one before it, by recursion on the
    list; [prev] is the entry that precedes the list, if any. *)
Fixpoint squeeze (prev : option str) (l : list str) : list str :=
  match l with
  | [] => []
  | x :: r =>
      match prev with
      | Some y => if String.eqb x y then squeeze (Some x) r
                  else x :: squeeze (Some x) r
      | None => x :: squeeze (Some x) r
      end
  end.

(** The entry before position [length pre] of [pre ++ l]. *)
Definition last_of (pre : list str) : option str :=
  List.last (map Some pre) None.

(** *** Sample sessions *)

(** A relay that has learnt no command and sees nobody online. *)
Definition quiet : relay_view := mkView [empty] [].

(** The session of an operator who has typed [reload]. *)
Definition typed_reload : SSHServer :=
  mkSSHServer (list_of_str "reload") [empty] 6 0 0 "reload" 24.

(** The session after [abc] was submitted, [a] typed and up-arrow
    pressed once, up to the redraw that ends that key. *)
Definition after_up : SSHServer :=
  mkSSHServer ["a"] ["abc"; empty] 1 0 1 "a" 24.

(** *** The hook the relay calls, and the key reader *)

Definition CR : str := chr 13.

(** The local [width] of [mc_callback] at the end of an iteration. *)
Definition next_width (W : Z) : Z := if (W - 27 <? 0)%Z then W else (W - 27)%Z.

(** The [while len(data) > 0] loop of [mc_callback] in a session whose
    [width] attribute is [W]; [None] when [fuel] iterations do not use up
    [data]. *)
Fixpoint mc_callback_loop (fuel : nat) (W width : Z) (data : str) : option (M unit) :=
  match fuel with
  | O => None
  | S f =>
      if Nat.ltb 0 (len data) then
        match mc_callback_loop f W (next_width W) (slice_from data W) with
        | Some rest =>
            Some (send_to_client CR false ;;
                  send_to_client (spaces (W - width)) true ;;
                  send_to_client (slice_to data W) true ;;
                  send_to_client NL true ;;
                  send_to_client CR false ;;
                  rest)
        | None => None
        end
      else Some (ret tt)
  end.

(** [mc_callback] (the definition in force, the later one in the class)
    of a session whose [width] attribute is [W], [None] before any pty
    request has set it; the result is [None] when [fuel] iterations of the
    loop are not enough. *)
Definition mc_callback (fuel : nat) (W : option Z) (v : relay_view) (data : str)
  : option (M unit) :=
  match W with
  | None =>
      Some (emit (Log ("[*] Sending to client: " ++ data)) ;; raise AttributeError)
  | Some w =>
      match mc_callback_loop fuel w w data with
      | Some loop =>
          Some (emit (Log ("[*] Sending to client: " ++ data)) ;;
                loop ;;
                redraw_buffer v)
      | None => None
      end
  end.

(** The bytes that end an escape sequence. *)
Definition terminators : str := "ABCDEFGHJKSTfmnsulh~".

(** What one [self.channel.recv(1)] returns: one byte, or no byte at all
    once the channel is closed. *)
Definition received (r : option ascii) : str :=
  match r with
  | Some b => String b EmptyString
  | None => EmptyString
  end.

(** The inner loop of [input_handler] that completes an escape sequence:
    what each [recv(1)] returns is appended to [data] until the last byte
    of [data] is one of the terminators; [None] while what was received
    does not get there.  ([data] starts with the escape byte, so [data[-1]]
    exists.) *)
Fixpoint read_escape (data : str) (recvs : list (option ascii))
  : option (str * list (option ascii)) :=
  match recvs with
  | [] => None
  | r :: rest =>
      let data' := data ++ received r in
      match last_char data' with
      | Some t =>
          if has_char t terminators then Some (data', rest)
          else read_escape data' rest
      | None => None
      end
  end.

(** The bytes of one key, taken from what the successive [recv(1)]
    return, and what is left of them: a byte that does not decode on its own
    (128 and above) is skipped; the escape byte starts an escape sequence;
    a [recv] that returns nothing decodes, and is handed on as the empty
    key; [None] while the key is incomplete. *)
Fixpoint read_key (recvs : list (option ascii))
  : option (str * list (option ascii)) :=
  match recvs with
  | [] => None
  | None :: rest => Some (EmptyString, rest)
  | Some b :: rest =>
      if Nat.leb 128 (nat_of_ascii b) then read_key rest
      else if Ascii.eqb b (ascii_of_nat 27) then read_escape ESC rest
      else Some (String b EmptyString, rest)
  end.

(** *** More observations *)

(** The three parts of what a method gives from session [s]. *)
Definition state_after {A} (c : M A) (s : SSHServer) : SSHServer := fst (fst (c s)).
Definition events_of {A} (c : M A) (s : SSHServer) : list event := snd (fst (c s)).
Definition outcome_of {A} (c : M A) (s : SSHServer) : res A := snd (c s).

(** From session [s], [c] ends in a session, a trace and an outcome that
    satisfy [P]. *)
Definition wpt {A} (c : M A) (P : SSHServer -> list event -> res A -> Prop)
           (s : SSHServer) : Prop :=
  match c s with (s', ev, r) => P s' ev r end.

(** [s] is [s0] up to the index into the completions. *)
Definition same_but_suffix (s0 s : SSHServer) : Prop :=
  buffer s = buffer s0 /\ history s = history s0 /\ position s = position s0
  /\ selected s = selected s0 /\ filter s = filter s0 /\ height s = height s0.

(** [len(self.filtered_history)] *)
Definition candidates (v : relay_view) (s : SSHServer) : Z :=
  Z.of_nat (List.length (filtered_history v s)).

(** The keys [input_handler] has a branch for. *)
Definition bound_keys : list str :=
  [key_return; key_backspace; key_interrupt; key_up; key_down; key_left;
   key_right; key_tab; key_delete].

(** What follows the first word in [" ".join(parts)]. *)
Definition after_first (rest : list str) : str :=
  match rest with
  | [] => empty
  | _ :: _ => " " ++ join " " rest
  end.

(** What one iteration of the loop of [mc_callback] sends for a line
    made of a padding and a chunk. *)
Definition line_events (l : Z * str) : list event :=
  [ClientSend CR false; ClientSend (spaces (fst l)) true;
   ClientSend (snd l) true; ClientSend NL true; ClientSend CR false].

(** The paddings of the lines sent for one message on a terminal [W]
    wide, the first one computed from [width]. *)
Definition pads_ok (W width : Z) (ls : list (Z * str)) : Prop :=
  match ls with
  | [] => True
  | l :: r => fst l = (W - width)%Z /\ Forall (fun l' => fst l' = (W - next_width W)%Z) r
  end.

End Server.

(** ** server.py: the reads of the roster

    [self.ws.players] is a call into the relay: it can raise (see
    [Mc.get_online_players]: [AttributeError] while [_players] is unset,
    [KeyError] on a roster entry without a name) and two reads made while
    one key is handled can differ (a failed refresh answers the empty list,
    the next read the cached roster).  [Server] follows a session whose
    reads all return one list; this module follows the methods that read
    the roster with every read made explicit: the relay is given by the
    answer of each read, in the order the reads are made. *)

Module Live.
Import Py Server.
Local Open Scope string_scope.

(** What one evaluation of [self.ws.players] gives. *)
Inductive answer :=
| Roster (names : list str)
| Fails (e : exn).

(** The relay as a session sees it: [ws.known_commands] and the answers
    of the successive reads of [ws.players]. *)
Record relay := mkRelay {
  known : list str;
  roster : nat -> answer
}.

(** A method that may read the roster: the number of reads made before
    it and the session before; the number of reads made and what
    [Server.M] gives after. *)
Definition L (A : Type) : Type :=
  nat -> SSHServer -> nat * (SSHServer * list event * res A).

Definition ret {A} (a : A) : L A := fun n s => (n, (s, [], Val a)).

Definition bind {A B} (c : L A) (k : A -> L B) : L B :=
  fun n s =>
    match c n s with
    | (n1, (s1, ev1, Val a)) =>
        match k a n1 s1 with
        | (n2, (s2, ev2, r)) => (n2, (s2, (ev1 ++ ev2)%list, r))
        end
    | (n1, (s1, ev1, Exit)) => (n1, (s1, ev1, Exit))
    | (n1, (s1, ev1, Raise e)) => (n1, (s1, ev1, Raise e))
    end.

Notation "x <~ c ;; k" := (bind c (fun x => k))
  (at level 61, c at next level, right associativity).
Notation "c ~~ k" := (bind c (fun _ => k))
  (at level 61, right associativity).

(** A method that does not read the roster. *)
Definition lift {A} (c : M A) : L A := fun n s => (n, c s).

(** [self.ws.players] *)
Definition ws_players (ws : relay) : L (list str) :=
  fun n s =>
    (S n, (s, [], match roster ws n with
                  | Roster names => Val names
                  | Fails e => Raise e
                  end)).

(** The view of a relay for the methods that read [ws.known_commands]
    only. *)
Definition commands (ws : relay) : relay_view := mkView (known ws) [].

(** [player_suggestions] *)
Definition player_suggestions (ws : relay) : L (list str) :=
  s <~ lift get ;;
  let words := split " " (filter s) in
  if Nat.eqb (len (filter s)) 0 || Nat.eqb (len (hd empty words)) 0 then ret []
  else if Nat.eqb (List.length words) 1 && is_command_complete (commands ws) s then
    ws_players ws
  else
    names <~ ws_players ws ;;
    let w := last_or words empty in
    ret (map (fun player => buffer_str s ++ drop_str (len w) player)
             (List.filter (fun player => startswith player w) names)).

(** [filtered_history] *)
Definition filtered_history (ws : relay) : L (list str) :=
  suggestions <~ player_suggestions ws ;;
  s <~ lift get ;;
  let filtered :=
    List.filter (fun cmd => startswith cmd (filter s))
                (suggestions ++ history s ++ known ws)%list in
  ret (filter s :: collapse_adjacent filtered).

(** [selection] (the definition in force): [self.filtered_history] is
    evaluated three times. *)
Definition selection (ws : relay) : L str :=
  fh <~ filtered_history ws ;;
  if Nat.eqb (List.length fh) 0 then s <~ lift get ;; ret (filter s)
  else
    fh1 <~ filtered_history ws ;;
    s <~ lift get ;;
    lift (when (Z.of_nat (List.length fh1) <=? selected s)%Z
               (modify (set_selected 0))) ~~
    fh2 <~ filtered_history ws ;;
    s1 <~ lift get ;;
    lift (subscript fh2 (selected s1)).

(** [suffix_selection] (the definition in force). *)
Definition suffix_selection (ws : relay) : L str :=
  fh <~ filtered_history ws ;;
  if Nat.eqb (List.length (from1 fh)) 0 then ret empty
  else
    fh1 <~ filtered_history ws ;;
    s <~ lift get ;;
    lift (when (Z.of_nat (List.length fh1) <=? selected_suffix s)%Z
               (modify (set_selected_suffix 0))) ~~
    fh2 <~ filtered_history ws ;;
    s1 <~ lift get ;;
    lift (subscript (from1 fh2) (selected_suffix s1)).

(** [suffix] *)
Definition suffix (ws : relay) : L str :=
  s <~ lift get ;;
  if Nat.eqb (len (filter s)) 0 then ret empty
  else
    sel <~ suffix_selection ws ;;
    ret (drop_str (len (filter s)) sel).

(** [redraw_buffer] (the definition in force). *)
Definition redraw_buffer (ws : relay) : L unit :=
  lift (send_to_client (ESC ++ "[2K") false) ~~
  s <~ lift get ;;
  lift (send_to_client
          (cursor_to (height s) 1 ++ "> " ++ buffer_formatted (commands ws) s)
          false) ~~
  lift (send_to_client
          (cursor_to (height s) (Z.of_nat (len (buffer_str s)) + 3)) false) ~~
  sfx <~ suffix ws ;;
  lift (send_to_client (SGR "30" ++ sfx ++ SGR "0") false) ~~
  s1 <~ lift get ;;
  lift (send_to_client (cursor_to (height s1) (position s1 + 3)) false).

(** [accept_completion] *)
Definition accept_completion (ws : relay) : L unit :=
  sel <~ suffix_selection ws ;;
  lift (modify (set_buffer (list_of_str sel))) ~~
  lift update_filter ~~
  s <~ lift get ;;
  lift (modify (set_position (Z.of_nat (List.length (buffer s))))) ~~
  redraw_buffer ws.

(** [previous_command] *)
Definition previous_command (ws : relay) : L unit :=
  s <~ lift get ;;
  if String.eqb (filter s) empty then
    fh <~ filtered_history ws ;;
    lift (modify (set_selected
                    (Z.min (Z.of_nat (List.length fh) - 1) (selected s + 1)))) ~~
    fh1 <~ filtered_history ws ;;
    s1 <~ lift get ;;
    x <~ lift (subscript fh1 (selected s1)) ;;
    lift (modify (set_buffer (list_of_str x))) ~~
    lift (modify (set_position (Z.of_nat (List.length (list_of_str x)))))
  else
    fh <~ filtered_history ws ;;
    lift (modify (set_selected_suffix
                    (Z.min (Z.of_nat (List.length fh) - 1)
                           (selected_suffix s + 1)))).

(** [next_command] *)
Definition next_command (ws : relay) : L unit :=
  s <~ lift get ;;
  if (selected s =? 0)%Z && String.eqb (filter s) empty then
    lift (modify (set_buffer [])) ~~
    lift (modify (set_position 0))
  else if String.eqb (filter s) empty then
    lift (modify (set_selected (Z.max 0 (selected s - 1)))) ~~
    fh <~ filtered_history ws ;;
    s1 <~ lift get ;;
    x <~ lift (subscript fh (selected s1)) ;;
    lift (modify (set_buffer (list_of_str x))) ~~
    lift (modify (set_position (Z.of_nat (List.length (list_of_str x)))))
  else
    lift (modify (set_selected_suffix (Z.max 0 (selected_suffix s - 1)))).

(** One iteration of the loop of [input_handler], after the bytes of one
    key have been assembled into [data]: dispatch, then redraw. *)
Definition input_handler_step (ws : relay) (data : str) : L unit :=
  (if String.eqb data key_return then
     lift (send_command ;; update_filter)
   else if String.eqb data key_backspace then
     lift (backspace ;; update_filter)
   else if String.eqb data key_interrupt then
     lift (s <- get ;;
           if Nat.ltb 0 (List.length (buffer s)) then
             modify (set_buffer []) ;; modify (set_position 0)
           else close ;; exit)
   else if String.eqb data key_up then previous_command ws
   else if String.eqb data key_down then next_command ws
   else if String.eqb data key_left then
     lift (s <- get ;;
           when (0 <? position s)%Z (modify (set_position (position s - 1))))
   else if String.eqb data key_right then
     s <~ lift get ;;
     if (position s =? Z.of_nat (List.length (buffer s)))%Z then
       accept_completion ws ~~ lift update_filter
     else
       lift (when (position s <? Z.of_nat (List.length (buffer s)))%Z
                  (modify (set_position (position s + 1))))
   else if String.eqb data key_tab then
     accept_completion ws ~~ lift update_filter
   else if String.eqb data key_delete then
     lift (s <- get ;;
           when (position s <? Z.of_nat (List.length (buffer s)))%Z
                (buffer_pop (position s)) ;;
           update_filter)
   else
     lift (s <- get ;;
           modify (set_buffer (insert (buffer s) (position s) data)) ;;
           modify (set_position (position s + 1)) ;;
           update_filter)) ~~
  redraw_buffer ws.

(** *** Observations *)

(** The parts of what a method gives after [n] reads, from session [s]. *)
Definition final {A} (c : L A) (n : nat) (s : SSHServer) : SSHServer :=
  fst (fst (snd (c n s))).
Definition trace {A} (c : L A) (n : nat) (s : SSHServer) : list event :=
  snd (fst (snd (c n s))).
Definition outcome {A} (c : L A) (n : nat) (s : SSHServer) : res A :=
  snd (snd (c n s)).
Definition reads {A} (c : L A) (n : nat) (s : SSHServer) : nat :=
  fst (c n s).

(** After [n] reads, [c] ends after a number of reads, in a session, with
    a trace and an outcome that satisfy [P]. *)
Definition wl {A} (c : L A)
           (P : nat -> SSHServer -> list event -> res A -> Prop)
           (n : nat) (s : SSHServer) : Prop :=
  match c n s with (n', (s', ev, r)) => P n' s' ev r end.

(** Whether [player_suggestions] reads the roster in session [s]. *)
Definition reads_roster (s : SSHServer) : bool :=
  negb (Nat.eqb (len (filter s)) 0
        || Nat.eqb (len (hd empty (split " " (filter s)))) 0).

(** From the read numbered [n] on, every read of the roster returns
    [names]. *)
Definition steady (ws : relay) (n : nat) (names : list str) : Prop :=
  forall k, (n <= k)%nat -> roster ws k = Roster names.

(** What a session sees of a relay whose reads return [names]. *)
Definition view (ws : relay) (names : list str) : relay_view :=
  mkView (known ws) names.

(** The read numbered [k] fails with [e]. *)
Definition fails_at (ws : relay) (k : nat) (e : exn) : Prop :=
  roster ws k = Fails e.

(** *** Sample relays *)

(** A relay that has learnt no command and always sees nobody online. *)
Definition nobody : relay := mkRelay [empty] (fun _ => Roster []).

End Live.

(** ** mc.py: the console relay *)

Module Mc.
Import Py.
Local Open Scope string_scope.

(** A decoded console record.  A field is [None] when the key is absent
    from the decoded object (subscripting it raises [KeyError]). *)
Record json_message := mkJson {
  timestampMillis : option Z;
  level : option str;
  message : option str
}.

(** One entry of the roster returned by the players endpoint. *)
Record player := mkPlayer { displayName : str }.

(** The module globals [KNOWN_MESSAGES] and [KNOWN_COMMANDS] together
    with the attributes of the one [MinecraftSocket]; subscribers are
    named by a number (Python compares them by identity). *)
Record MinecraftSocket := mkSocket {
  KNOWN_MESSAGES : list str;
  KNOWN_COMMANDS : list str;
  latest_message : Z;
  _players : option (list player);
  players_last_updated : Q;
  callbacks : list nat
}.

Inductive event :=
| Log (line : str)                 (* server.log(line) *)
| SaveMessages (msgs : list str)   (* .messages rewritten *)
| SaveCommands (text : str).       (* commands.txt rewritten *)

Definition set_known_messages (m : list str) (w : MinecraftSocket) :=
  mkSocket m (KNOWN_COMMANDS w) (latest_message w) (_players w)
           (players_last_updated w) (callbacks w).
Definition set_known_commands (c : list str) (w : MinecraftSocket) :=
  mkSocket (KNOWN_MESSAGES w) c (latest_message w) (_players w)
           (players_last_updated w) (callbacks w).
Definition set_latest_message (t : Z) (w : MinecraftSocket) :=
  mkSocket (KNOWN_MESSAGES w) (KNOWN_COMMANDS w) t (_players w)
           (players_last_updated w) (callbacks w).
Definition set_players (p : list player) (w : MinecraftSocket) :=
  mkSocket (KNOWN_MESSAGES w) (KNOWN_COMMANDS w) (latest_message w) (Some p)
           (players_last_updated w) (callbacks w).
Definition set_players_last_updated (t : Q) (w : MinecraftSocket) :=
  mkSocket (KNOWN_MESSAGES w) (KNOWN_COMMANDS w) (latest_message w) (_players w)
           t (callbacks w).
Definition set_callbacks (c : list nat) (w : MinecraftSocket) :=
  mkSocket (KNOWN_MESSAGES w) (KNOWN_COMMANDS w) (latest_message w) (_players w)
           (players_last_updated w) c.

(** [__init__] in a process whose two files were empty. *)
Definition init : MinecraftSocket := mkSocket [] [empty] 0 None 0 [].

(** *** The roster *)

(** What [requests.get] followed by [raise_for_status] does. *)
Inductive http :=
| HttpOk (body : list player)
| HttpError (e : str).             (* a [RequestException] *)

Definition Qltb (x y : Q) : bool := negb (Qle_bool y x).

(** [get_online_players], called when [time.time()] reads [now] and the
    players endpoint would answer [resp]. *)
Definition get_online_players (now : Q) (resp : http) (w : MinecraftSocket)
  : MinecraftSocket * list event * res (list player) :=
  if Qltb (now - players_last_updated w)%Q 10%Q then
    match _players w with
    | Some ps => (w, [], Val ps)
    | None => (w, [], Raise AttributeError)
    end
  else
    let w1 := set_players_last_updated now w in
    match resp with
    | HttpError e => (w1, [Log ("Error getting online players: " ++ e)], Val [])
    | HttpOk body => (set_players body w1, [], Val body)
    end.

(** [players] *)
Definition players (now : Q) (resp : http) (w : MinecraftSocket)
  : MinecraftSocket * list event * res (list str) :=
  match get_online_players now resp w with
  | (w1, ev, Val ps) => (w1, ev, Val (map displayName ps))
  | (w1, ev, Exit) => (w1, ev, Exit)
  | (w1, ev, Raise e) => (w1, ev, Raise e)
  end.

(** [subscribe] and [unsubscribe] *)
Definition subscribe (c : nat) (w : MinecraftSocket) : MinecraftSocket :=
  set_callbacks (callbacks w ++ [c])%list w.

Definition unsubscribe (c : nat) (w : MinecraftSocket) : option MinecraftSocket :=
  match remove Nat.eqb c (callbacks w) with
  | Some l => Some (set_callbacks l w)
  | None => None
  end.

(** *** Ingestion *)

(** The run of non-whitespace characters a string starts with. *)
Fixpoint non_space_run (s : str) : str :=
  match s with
  | EmptyString => EmptyString
  | String c r => if isspace c then EmptyString else String c (non_space_run r)
  end.

(** What precedes the last colon of a string. *)
Fixpoint before_last_colon (s : str) : option str :=
  match s with
  | EmptyString => None
  | String c r =>
      match before_last_colon r with
      | Some g => Some (String c g)
      | None => if Ascii.eqb c ":" then Some EmptyString else None
      end
  end.

(** [re.match(r"^\/([^\s]+):", text)] and its group 1: a slash, the
    longest non-empty run of non-whitespace characters that a colon
    follows. *)
Definition match_command (text : str) : option str :=
  match text with
  | String c r =>
      if Ascii.eqb c "/" then
        match before_last_colon (non_space_run r) with
        | Some (String d g) => Some (String d g)
        | _ => None
        end
      else None
  | EmptyString => None
  end.

(** How [on_message] ends: an exception leaves it, it returns before the
    loop over the subscribers, or it reaches that loop with the formatted
    line. *)
Inductive ingest :=
| Raises (e : exn)
| Returns
| FansOut (formatted : str).

Section Ingestion.
(** [json.loads]; [None] when it raises. *)
Variable json_loads : str -> option json_message.
(** [datetime.datetime.fromtimestamp(t / 1000).strftime(...)] in the
    zone of the host; [None] when it raises. *)
Variable strftime : Z -> option str.

(** [format_message]; [None] when it raises. *)
Definition format_message (j : json_message) : option str :=
  match timestampMillis j with
  | None => None
  | Some t =>
      match strftime t, level j, message j with
      | Some tf, Some l, Some m => Some (tf ++ " " ++ l ++ " : " ++ m)
      | _, _, _ => None
      end
  end.

(** The command learning of [on_message]. *)
Definition learn_command (text : str) (w : MinecraftSocket)
  : MinecraftSocket * list event :=
  match match_command text with
  | Some command =>
      if str_in command (KNOWN_COMMANDS w) then (w, [])
      else
        let cs := (KNOWN_COMMANDS w ++ [command])%list in
        (set_known_commands cs w, [SaveCommands (join NL cs)])
  | None => (w, [])
  end.

(** [on_message], up to the loop that starts one thread per
    subscriber. *)
Definition on_message (raw : str) (w : MinecraftSocket)
  : MinecraftSocket * list event * ingest :=
  match json_loads raw with
  | None => (w, [], Raises JSONDecodeError)
  | Some j =>
      match timestampMillis j with
      | None => (w, [], Raises KeyError)
      | Some ts =>
          if (ts <? latest_message w)%Z then (w, [], Returns)
          else if str_in raw (KNOWN_MESSAGES w) then (w, [], Returns)
          else
            let msgs := (KNOWN_MESSAGES w ++ [raw])%list in
            let w1 := set_latest_message ts (set_known_messages msgs w) in
            let ev1 := [SaveMessages msgs;
                        Log ("[WebSocket] Received message: " ++ raw)] in
            match message j with
            | None => (w1, ev1, Raises KeyError)
            | Some text =>
                let '(w2, ev2) := learn_command text w1 in
                match format_message j with
                | None =>
                    (w2, (ev1 ++ ev2 ++
                          [Log "[WebSocket] Error formatting message"])%list,
                     Returns)
                | Some formatted => (w2, (ev1 ++ ev2)%list, FansOut formatted)
                end
            end
      end
  end.

(** The relay after [on_message] has handled [raw]. *)
Definition after (raw : str) (w : MinecraftSocket) : MinecraftSocket :=
  fst (fst (on_message raw w)).

(** [on_message] called on each line of a feed in turn: the relay at the
    end, and the raw lines that reached the loop over the subscribers. *)
Fixpoint on_messages (raws : list str) (w : MinecraftSocket)
  : MinecraftSocket * list str :=
  match raws with
  | [] => (w, [])
  | raw :: rest =>
      let '(w1, _, r) := on_message raw w in
      let '(w2, sent) := on_messages rest w1 in
      (w2, match r with FansOut _ => raw :: sent | _ => sent end)
  end.

End Ingestion.

(** *** Sample data *)

Definition dq (s : str) : str := chr 34 ++ s ++ chr 34.

(** The console line of the ban scenario, as the feed sends it. *)
Definition ban_line : str :=
  "{" ++ dq "timestampMillis" ++ ": 100, " ++ dq "level" ++ ": " ++ dq "INFO"
      ++ ", " ++ dq "message" ++ ": " ++ dq "/ban: player banned" ++ "}".

(** A decoder that knows that one line. *)
Definition loads_ban_line (raw : str) : option json_message :=
  if String.eqb raw ban_line
  then Some (mkJson (Some 100%Z) (Some "INFO") (Some "/ban: player banned"))
  else None.

(** A host whose clock renders every instant alike. *)
Definition strftime_epoch (t : Z) : option str := Some "1970-01-01 00:00:00".

(** The relay of a fresh process after that line came in. *)
Definition after_ban_line : MinecraftSocket :=
  after loads_ban_line strftime_epoch ban_line init.

(** A relay whose high-water mark is past that line. *)
Definition past_ban_line : MinecraftSocket := set_latest_message 200 init.

(** A relay that fetched a roster of one player at time 0. *)
Definition with_roster : MinecraftSocket :=
  mkSocket [] [empty] 0 (Some [mkPlayer "Steve"]) 0 [].

End Mc.

(** ** mc.py: the loop of [on_message] over the subscribers

    [on_message] ends with

      for callback in self.callbacks:
          def wrapper(): ...
          Thread(target=wrapper).start()

    Every [wrapper] is a closure over the one variable [callback] of the
    enclosing call, so it reads the value that variable holds at the moment
    it runs; the list is walked by an iterator that keeps an index into it.
    The threads interleave, which the step relation below models: a round
    is a state of the loop and of the wrappers started so far.  The relation
    takes as a parameter the rounds in which a thread other than the loop
    may be scheduled. *)

Module FanOut.
Import Py.

(** Where a [wrapper] thread stands. *)
Inductive wrapper :=
| Started              (* before [callback.lock] is evaluated *)
| Waiting (c : nat)    (* acquiring the lock of [c] *)
| Holding (c : nat)    (* inside the [with] block, before [callback.mc_callback] *)
| Caught               (* in the handler, before [self.callbacks.remove(callback)] *)
| Finished
| Died.                (* [remove] raised inside the handler *)

Record round := mkRound {
  registry : list nat;        (* self.callbacks *)
  callback : option nat;      (* the loop variable shared by the wrappers *)
  fetched : option nat;       (* entry the iterator has yielded, not yet bound *)
  cursor : option nat;        (* index of the list iterator; [None] after the loop *)
  wrappers : list wrapper;    (* the threads started so far *)
  held : list nat;            (* subscribers whose lock is held *)
  rendered : list nat         (* subscribers whose [mc_callback] returned *)
}.

(** The round [on_message] starts with. *)
Definition start (subs : list nat) : round :=
  mkRound subs None None (Some 0) [] [] [].

Definition set_wrapper (k : nat) (t : wrapper) (l : list wrapper) : list wrapper :=
  firstn k l ++ t :: skipn (S k) l.

Definition release (c : nat) (l : list nat) : list nat :=
  match remove Nat.eqb c l with
  | Some l' => l'
  | None => l
  end.

(** The iterator of the [for] yields the entry at its index and moves on,
    or ends the loop when the index is past the end of the list. *)
Definition fetch_step (r : round) : option round :=
  match fetched r, cursor r with
  | None, Some i =>
      match nth_error (registry r) i with
      | Some c =>
          Some (mkRound (registry r) (callback r) (Some c) (Some (S i))
                        (wrappers r) (held r) (rendered r))
      | None =>
          Some (mkRound (registry r) (callback r) None None
                        (wrappers r) (held r) (rendered r))
      end
  | _, _ => None
  end.

(** [callback] is bound to the entry just yielded and a thread is started
    on a new [wrapper]. *)
Definition rebind_step (r : round) : option round :=
  match fetched r with
  | Some c =>
      Some (mkRound (registry r) (Some c) None (cursor r)
                    (wrappers r ++ [Started]) (held r) (rendered r))
  | None => None
  end.

(** The next step of the loop, whichever it is. *)
Definition loop_step (r : round) : option round :=
  match fetch_step r with
  | Some r' => Some r'
  | None => rebind_step r
  end.

Definition opt_list {A} (o : option A) : list A :=
  match o with Some x => [x] | None => [] end.

Section Hooks.
(** Whether the [mc_callback] of a subscriber raises. *)
Variable faulty : nat -> bool.
(** Whether a thread other than the loop may run in a round. *)
Variable preempt : round -> bool.

(** One step of thread [k]. *)
Definition wrapper_step (k : nat) (r : round) : option round :=
  match nth_error (wrappers r) k, callback r with
  | Some Started, Some c =>
      Some (mkRound (registry r) (callback r) (fetched r) (cursor r)
                    (set_wrapper k (Waiting c) (wrappers r))
                    (held r) (rendered r))
  | Some (Waiting c), _ =>
      if existsb (Nat.eqb c) (held r) then None
      else Some (mkRound (registry r) (callback r) (fetched r) (cursor r)
                         (set_wrapper k (Holding c) (wrappers r))
                         (c :: held r) (rendered r))
  | Some (Holding c), Some c' =>
      if faulty c' then
        Some (mkRound (registry r) (callback r) (fetched r) (cursor r)
                      (set_wrapper k Caught (wrappers r))
                      (release c (held r)) (rendered r))
      else
        Some (mkRound (registry r) (callback r) (fetched r) (cursor r)
                      (set_wrapper k Finished (wrappers r))
                      (release c (held r)) (rendered r ++ [c']))
  | Some Caught, Some c =>
      match remove Nat.eqb c (registry r) with
      | Some l =>
          Some (mkRound l (callback r) (fetched r) (cursor r)
                        (set_wrapper k Finished (wrappers r))
                        (held r) (rendered r))
      | None =>
          Some (mkRound (registry r) (callback r) (fetched r) (cursor r)
                        (set_wrapper k Died (wrappers r))
                        (held r) (rendered r))
      end
  | _, _ => None
  end.

(** Every round one step away. *)
Definition successors (r : round) : list round :=
  opt_list (loop_step r)
  ++ (if preempt r
      then flat_map (fun k => opt_list (wrapper_step k r))
                    (seq 0 (List.length (wrappers r)))
      else []).

Inductive step (r r' : round) : Prop :=
| step_loop : loop_step r = Some r' -> step r r'
| step_wrapper k : preempt r = true -> wrapper_step k r = Some r' -> step r r'.

Inductive run (r : round) : round -> Prop :=
| run_here : run r r
| run_step r1 r' : step r r1 -> run r1 r' -> run r r'.

(** Nothing is left to do: the loop is over and no thread can move. *)
Definition quiescent (r : round) : Prop := forall r', ~ step r r'.

(** The rounds reached by running to the end, along every interleaving
    of at most [fuel] steps. *)
Fixpoint outcomes (fuel : nat) (r : round) : list round :=
  match fuel with
  | O => [r]
  | S f =>
      match successors r with
      | [] => [r]
      | rs => flat_map (outcomes f) rs
      end
  end.

(** A schedule names who moves: [None] the loop, [Some k] thread [k]. *)
Fixpoint play (sched : list (option nat)) (r : round) : option round :=
  match sched with
  | [] => Some r
  | None :: rest =>
      match loop_step r with Some r1 => play rest r1 | None => None end
  | Some k :: rest =>
      if preempt r then
        match wrapper_step k r with Some r1 => play rest r1 | None => None end
      else None
  end.

Definition settled (r : round) : bool :=
  match successors r with [] => true | _ => false end.
End Hooks.

Definition list_nat_eqb (a b : list nat) : bool :=
  if list_eq_dec Nat.eq_dec a b then true else false.

(** What the round owes the subscribers [subs] when the hook of [bad]
    raises: [bad] is gone from the registry, the others are still there,
    and each of them rendered the line. *)
Definition isolated (subs : list nat) (bad : nat) (r : round) : bool :=
  list_nat_eqb (registry r)
               (List.filter (fun c => negb (Nat.eqb c bad)) subs)
  && forallb (fun c => Nat.eqb c bad || existsb (Nat.eqb c) (rendered r)) subs.

(** *** Scheduling *)

(** Threads may be switched anywhere. *)
Definition anywhere (r : round) : bool := true.

(** Threads are not switched between the moment the iterator yields an
    entry and the moment [callback] is bound to it (CPython from 3.10 on
    switches threads only after calls and on backward jumps). *)
Definition outside_header (r : round) : bool :=
  match fetched r with None => true | Some _ => false end.

(** *** Sample rounds *)

(** Subscriber 0 has a hook that raises, everyone else renders. *)
Definition zero_faulty (c : nat) : bool := Nat.eqb c 0.

(** Two subscribers: the first thread runs to its end as soon as it is
    started. *)
Definition eager_two : list (option nat) :=
  [None; None; Some 0; Some 0; Some 0; Some 0; None].

(** Two subscribers, each thread run to its end as soon as it is started,
    the loop in between. *)
Definition eager_faulty_last : list (option nat) :=
  [None; None; Some 0; Some 0; Some 0;
   None; None; Some 1; Some 1; Some 1; Some 1; None].

(** Two subscribers: the handler of the first thread runs after the
    iterator has yielded the second entry and before [callback] is bound
    to it. *)
Definition racing_two : list (option nat) :=
  [None; None; Some 0; Some 0; Some 0; None; Some 0;
   None; Some 1; Some 1; Some 1; None].

(** No hook raises. *)
Definition no_faulty (c : nat) : bool := false.

(** Whether a thread stands in the exception handler or died there. *)
Definition in_handler (t : wrapper) : bool :=
  match t with Caught | Died => true | _ => false end.

(** What stays true of a round started on [subs]: whatever is registered,
    bound, yielded or rendered was subscribed at the start. *)
Definition within (subs : list nat) (r : round) : Prop :=
  incl (registry r) subs
  /\ (forall c, callback r = Some c -> In c subs)
  /\ (forall c, fetched r = Some c -> In c subs)
  /\ incl (rendered r) subs.

(** The registry is as it was and no thread has entered the handler. *)
Definition calm (subs : list nat) (r : round) : Prop :=
  registry r = subs /\ Forall (fun t => in_handler t = false) (wrappers r).

(** Two subscribers: both threads are started before the first one reads
    [callback]. *)
Definition late_two : list (option nat) :=
  [None; None; None; None; Some 0; Some 0; Some 0; Some 1; Some 1; Some 1; None].

End FanOut.

(** * Properties of the line editor *)

Module ServerFacts.
Import Py Server.
Local Open Scope string_scope.

Lemma buffer_str_nonempty s :
  buffer_str s <> empty -> buffer s <> [].
Proof.
  intros H E. apply H. unfold buffer_str. rewrite E. reflexivity.
Qed.

Lemma length_zero_eqb (A : Type) (l : list A) :
  l <> [] -> Nat.eqb (List.length l) 0 = false.
Proof. destruct l; [congruence | reflexivity]. Qed.

(** C10: with an empty buffer [send_command] returns at once: the
    session is unchanged (buffer, cursor, history and both selection
    indices) and nothing is sent upstream, to the client, to the history
    file or to a log. *)
Theorem send_command_empty_noop (s : SSHServer) :
  buffer s = [] -> send_command s = (s, [], Val tt).
Proof.
  intros H. unfold send_command, bind, get. rewrite H. reflexivity.
Qed.

Lemma send_command_empty_noop_witness :
  buffer (init 24) = [] /\ send_command (init 24) = (init 24, [], Val tt).
Proof.
  split; [reflexivity | apply (send_command_empty_noop (init 24)); reflexivity].
Defined.

(** C1, as stated, fails: submitting [reload] does not leave
    [reload confirm] in the buffer, and a command goes upstream. *)
Lemma send_command_reload_not_two_step :
  ~ (buffer (fst (fst (send_command typed_reload))) = list_of_str "reload confirm"
     /\ upstream (snd (fst (send_command typed_reload))) = [])
  /\ buffer (fst (fst (send_command typed_reload))) = []
  /\ upstream (snd (fst (send_command typed_reload))) = ["reload confirm"].
Proof.
  vm_compute. split; [| split; reflexivity].
  intros [H _]. discriminate H.
Qed.

(** C1, amended: submitting exactly [reload] records [reload] in the
    history, rewrites the buffer to [reload confirm] and forwards that
    rewritten line upstream in the same submit; the buffer, the cursor and
    both selection indices are then reset. *)
Theorem send_command_reload_forwards_confirm (s : SSHServer) (h : list str) :
  buffer_str s = "reload" ->
  add_history_list (history s) "reload" = Some h ->
  send_command s =
    (mkSSHServer [] h 0 0 0 (filter s) (height s),
     [SaveHistory (join NL (from1 h));
      WsSend "reload confirm";
      Log "[*] Sent command: reload confirm";
      ClientSend (ESC ++ "[2K") false],
     Val tt).
Proof.
  intros Hb Hh.
  assert (Hne : buffer s <> []).
  { apply buffer_str_nonempty. rewrite Hb. discriminate. }
  unfold send_command, bind at 1, get.
  rewrite (length_zero_eqb Hne).
  unfold add_history, bind, get, modify, emit, when, ret. cbn [history].
  rewrite Hb, Hh. cbn. reflexivity.
Qed.

Lemma send_command_reload_forwards_confirm_witness :
  buffer_str typed_reload = "reload"
  /\ add_history_list (history typed_reload) "reload" = Some ["reload"; empty]
  /\ send_command typed_reload =
       (mkSSHServer [] ["reload"; empty] 0 0 0 "reload" 24,
        [SaveHistory empty;
         WsSend "reload confirm";
         Log "[*] Sent command: reload confirm";
         ClientSend (ESC ++ "[2K") false],
        Val tt).
Proof.
  split; [reflexivity | split; [reflexivity |]].
  apply (@send_command_reload_forwards_confirm typed_reload ["reload"; empty]);
    reflexivity.
Defined.

(** The broadcast scenario: submitting [!hello] sends [/broadcast hello]
    upstream. *)
Example send_command_broadcast :
  upstream (snd (fst (send_command
                        (mkSSHServer (list_of_str "!hello") [empty] 6 0 0 "!hello" 24))))
  = ["/broadcast hello"].
Proof. reflexivity. Qed.

(** ** The cursor *)

(** C6 (evaluation of the code): a fresh session in which the operator
    types [a], moves left and presses backspace.  [backspace] only asks
    whether the buffer is non-empty, so at cursor 0 it pops index -1 (the
    last character) and leaves the cursor at -1, outside the buffer. *)
Theorem backspace_at_line_start_leaves_range :
  let '(s, _, r) := input_handler quiet None ["a"; key_left; key_backspace] (init 24) in
  r = Val tt /\ buffer s = [] /\ position s = (-1)%Z /\ ~ cursor_in_range s.
Proof.
  vm_compute. repeat split; try reflexivity.
  intros [H _]. apply H. reflexivity.
Qed.

(** *** Where the cursor does stay within the buffer *)

Section Wp.
Context {A B : Type}.
Variables (Q : A -> SSHServer -> Prop) (E : SSHServer -> Prop).

Lemma wp_bind (c : M B) (k : B -> M A) s :
  wp (bind c k) Q E s = wp c (fun b s1 => wp (k b) Q E s1) E s.
Proof.
  unfold wp, bind. destruct (c s) as [[s1 ev1] [b | | e]]; [| reflexivity ..].
  destruct (k b s1) as [[s2 ev2] r]. reflexivity.
Qed.

Lemma wp_ret a s : wp (ret a) Q E s = Q a s.
Proof. reflexivity. Qed.

Lemma wp_raise e s : wp (raise e) Q E s = E s.
Proof. reflexivity. Qed.

Lemma wp_exit s : wp exit Q E s = E s.
Proof. reflexivity. Qed.

Lemma wp_mono (c : M A) (Q' : A -> SSHServer -> Prop) (E' : SSHServer -> Prop) s :
  wp c Q' E' s ->
  (forall a s', Q' a s' -> Q a s') -> (forall s', E' s' -> E s') ->
  wp c Q E s.
Proof.
  unfold wp. destruct (c s) as [[s1 ev1] [a | | e]]; auto.
Qed.
End Wp.

Lemma wp_get (Q : SSHServer -> SSHServer -> Prop) E s : wp get Q E s = Q s s.
Proof. reflexivity. Qed.

Lemma wp_modify f (Q : unit -> SSHServer -> Prop) E s :
  wp (modify f) Q E s = Q tt (f s).
Proof. reflexivity. Qed.

Lemma wp_emit e (Q : unit -> SSHServer -> Prop) E s :
  wp (emit e) Q E s = Q tt s.
Proof. reflexivity. Qed.

Ltac wp_step :=
  first [ rewrite wp_get | rewrite wp_modify | rewrite wp_emit
        | rewrite wp_ret | rewrite wp_raise | rewrite wp_exit
        | rewrite wp_bind ].

Ltac wp_run := repeat (wp_step; cbv beta).

Lemma in_range_reset s b :
  cursor_in_range (set_position 0 (set_buffer b s)).
Proof. unfold cursor_in_range. cbn. lia. Qed.

Lemma same_line_refl s : same_line s s.
Proof. split; reflexivity. Qed.

Lemma suffix_selection_line v : keeps_line (suffix_selection v).
Proof.
  intros s. unfold suffix_selection. wp_run.
  destruct (Nat.eqb _ 0); wp_run; [apply same_line_refl |].
  unfold when.
  destruct (_ <=? _)%Z; wp_run; unfold subscript;
    match goal with |- context [index ?l ?i] => destruct (index l i) end;
    wp_run; split; reflexivity.
Qed.

Lemma same_line_cursor s0 s : cursor_in_range s0 -> same_line s0 s -> cursor_in_range s.
Proof. unfold same_line, cursor_in_range. intros H [-> ->]. exact H. Qed.

Lemma suffix_line v : keeps_line (suffix v).
Proof.
  intros s. unfold suffix. wp_run.
  destruct (Nat.eqb _ 0); wp_run; [apply same_line_refl |].
  eapply wp_mono; [apply suffix_selection_line | | auto].
  intros a s' H. wp_run. exact H.
Qed.

Lemma redraw_buffer_line v : keeps_line (redraw_buffer v).
Proof.
  intros s. unfold redraw_buffer, send_to_client. wp_run.
  eapply wp_mono; [apply suffix_line | | auto].
  intros a s' H. wp_run. exact H.
Qed.

Lemma redraw_buffer_cursor v : keeps_cursor (redraw_buffer v).
Proof.
  intros s H. eapply wp_mono; [apply redraw_buffer_line | |];
    intros; eapply same_line_cursor; eauto.
Qed.

Lemma length_list_of_str_nonneg (b : list str) :
  (0 <= Z.of_nat (List.length b) <= Z.of_nat (List.length b))%Z.
Proof. lia. Qed.

Lemma accept_completion_cursor v : keeps_cursor (accept_completion v).
Proof.
  intros s H. unfold accept_completion. wp_run.
  eapply wp_mono; [apply suffix_selection_line | |].
  - intros sel s1 H1. unfold update_filter. wp_run.
    apply redraw_buffer_cursor. unfold cursor_in_range. cbn. lia.
  - intros s1 H1. eapply same_line_cursor; eauto.
Qed.

Lemma update_filter_cursor : keeps_cursor update_filter.
Proof. intros s H. unfold update_filter. wp_run. exact H. Qed.

Ltac in_range := unfold cursor_in_range; cbn; lia.

Lemma send_command_cursor : keeps_cursor send_command.
Proof.
  intros s H. unfold send_command. wp_run.
  destruct (Nat.eqb _ 0); wp_run; [exact H |].
  unfold add_history. wp_run.
  destruct (add_history_list _ _) as [h|]; wp_run; [| exact H].
  unfold when. destruct (String.eqb (buffer_str s) "reload"); wp_run.
  - unfold wp. lazy. split; discriminate.
  - change (buffer_str (set_history h s)) with (buffer_str s).
    destruct (String.eqb _ "exit"); [unfold close; wp_run; exact H |].
    destruct (str_in _ _); [unfold send_to_client; wp_run; in_range |].
    destruct (String.eqb _ "reset"); [unfold send_to_client; wp_run; in_range |].
    destruct (strip _); [wp_run; exact H |].
    destruct (Ascii.eqb _ _); unfold send_to_client; wp_run; in_range.
Qed.

Lemma subscript_line l i s (Q : str -> SSHServer -> Prop) (E : SSHServer -> Prop) :
  (forall x, Q x s) -> E s -> wp (subscript l i) Q E s.
Proof.
  intros HQ HE. unfold subscript. destruct (index l i); wp_run; auto.
Qed.

Lemma previous_command_cursor v : keeps_cursor (previous_command v).
Proof.
  intros s H. unfold previous_command. wp_run.
  destruct (String.eqb _ _); wp_run; [| exact H].
  apply subscript_line; [| exact H].
  intros x. wp_run. in_range.
Qed.

Lemma next_command_cursor v : keeps_cursor (next_command v).
Proof.
  intros s H. unfold next_command. wp_run.
  destruct (_ && _); wp_run; [in_range |].
  destruct (String.eqb _ _); wp_run; [| exact H].
  apply subscript_line; [| exact H].
  intros x. wp_run. in_range.
Qed.

Lemma length_without A (l : list A) j :
  j < List.length l -> S (List.length (firstn j l ++ skipn (S j) l)) = List.length l.
Proof.
  intros H. rewrite length_app, length_firstn, length_skipn. lia.
Qed.

Lemma pop_length A (l l' : list A) i :
  pop l i = Some l' -> S (List.length l') = List.length l.
Proof.
  unfold pop, norm_index.
  destruct ((_ <? 0)%Z || _)%bool eqn:E; [discriminate |].
  intros [= <-]. apply orb_false_iff in E. destruct E as [E1 E2].
  apply Z.ltb_ge in E1. apply Z.leb_gt in E2.
  apply length_without. lia.
Qed.

Lemma insert_length A (l : list A) i x :
  List.length (insert l i x) = S (List.length l).
Proof.
  unfold insert. rewrite length_app. simpl. rewrite length_firstn, length_skipn.
  destruct (i <? 0)%Z; lia.
Qed.

(** Backspace with the cursor past the first column, or on an empty
    line, leaves the cursor within the buffer. *)
Lemma backspace_cursor s :
  cursor_in_range s -> (0 < position s)%Z \/ buffer s = [] ->
  wp backspace (fun _ => cursor_in_range) cursor_in_range s.
Proof.
  intros H Hsafe. unfold backspace. wp_run.
  destruct (Nat.ltb 0 _) eqn:Hl; wp_run; [| exact H].
  destruct Hsafe as [Hpos | Hemp]; [| rewrite Hemp in Hl; discriminate].
  unfold buffer_pop. wp_run.
  destruct (pop _ _) as [b|] eqn:Hp; wp_run; [| exact H].
  apply pop_length in Hp. unfold cursor_in_range in *. cbn. lia.
Qed.

(** Every key other than a backspace at column 0 of a non-empty line
    leaves the cursor within the buffer, whether its handling returns,
    exits or raises. *)
Lemma input_handler_step_cursor v data s :
  cursor_in_range s -> safe_key data s ->
  wp (input_handler_step v data) (fun _ => cursor_in_range) cursor_in_range s.
Proof.
  intros H Hsafe. unfold input_handler_step. rewrite wp_bind.
  assert (Hredraw : forall (u : unit) s1, cursor_in_range s1 ->
            wp (redraw_buffer v) (fun _ => cursor_in_range) cursor_in_range s1).
  { intros _ s1 H1. now apply redraw_buffer_cursor. }
  assert (Hfilter : forall (u : unit) s1, cursor_in_range s1 ->
            wp update_filter (fun _ s2 => wp (redraw_buffer v) (fun _ => cursor_in_range) cursor_in_range s2) cursor_in_range s1).
  { intros _ s1 H1. unfold update_filter. wp_run. now apply Hredraw. }
  destruct (String.eqb data key_return).
  { wp_run. eapply wp_mono; [now apply send_command_cursor | exact Hfilter | auto]. }
  destruct (String.eqb data key_backspace) eqn:Eb.
  { apply String.eqb_eq in Eb. wp_run.
    eapply wp_mono; [apply backspace_cursor; auto | exact Hfilter | auto]. }
  destruct (String.eqb data key_interrupt).
  { wp_run. destruct (Nat.ltb 0 _); unfold close; wp_run; [| exact H].
    apply (Hredraw tt). in_range. }
  destruct (String.eqb data key_up).
  { eapply wp_mono; [now apply previous_command_cursor | exact Hredraw | auto]. }
  destruct (String.eqb data key_down).
  { eapply wp_mono; [now apply next_command_cursor | exact Hredraw | auto]. }
  destruct (String.eqb data key_left).
  { wp_run. unfold when. destruct (0 <? position s)%Z eqn:Ep; wp_run;
      apply (Hredraw tt); [| exact H].
    apply Z.ltb_lt in Ep. unfold cursor_in_range in *. cbn. lia. }
  destruct (String.eqb data key_right).
  { wp_run. destruct (position s =? _)%Z.
    - wp_run. eapply wp_mono; [now apply accept_completion_cursor | exact Hfilter | auto].
    - unfold when. destruct (position s <? _)%Z eqn:Ep; wp_run;
        apply (Hredraw tt); [| exact H].
      apply Z.ltb_lt in Ep. unfold cursor_in_range in *. cbn. lia. }
  destruct (String.eqb data key_tab).
  { wp_run. eapply wp_mono; [now apply accept_completion_cursor | exact Hfilter | auto]. }
  destruct (String.eqb data key_delete).
  { wp_run. unfold when. destruct (position s <? _)%Z eqn:Ep.
    - unfold buffer_pop. wp_run.
      destruct (pop _ _) as [b|] eqn:Hp; wp_run; [| exact H].
      apply (Hfilter tt). apply pop_length in Hp. apply Z.ltb_lt in Ep.
      unfold cursor_in_range in *. cbn. lia.
    - wp_run. now apply (Hfilter tt). }
  wp_run. unfold update_filter. wp_run. apply (Hredraw tt).
  unfold cursor_in_range in *. cbn. rewrite insert_length. lia.
Qed.

(** With the cursor at [p > 0] within the buffer, [backspace] removes the
    entry before the cursor and moves the cursor back by one; on an empty
    buffer it does nothing. *)
Lemma backspace_before_cursor s :
  (buffer s = [] -> backspace s = (s, [], Val tt))
  /\ ((0 < position s <= Z.of_nat (List.length (buffer s)))%Z ->
      backspace s =
        (set_position (position s - 1)
           (set_buffer (firstn (Z.to_nat (position s - 1)) (buffer s)
                        ++ skipn (Z.to_nat (position s)) (buffer s))%list s),
         [], Val tt)).
Proof.
  split.
  - intros Hb. unfold backspace, bind, get. now rewrite Hb.
  - intros Hp. unfold backspace, bind at 1, get.
    destruct (buffer s) as [|x b] eqn:Hb; [simpl in Hp; lia |].
    cbn [List.length Nat.ltb Nat.leb].
    unfold buffer_pop, bind, get, modify, pop, norm_index. rewrite Hb.
    destruct (position s - 1 <? 0)%Z eqn:E0; [apply Z.ltb_lt in E0; lia |].
    destruct ((position s - 1 <? 0)%Z || (Z.of_nat (List.length (x :: b)) <=? position s - 1)%Z)
      eqn:E1.
    + apply orb_true_iff in E1. destruct E1 as [E1 | E1];
        [apply Z.ltb_lt in E1 | apply Z.leb_le in E1]; lia.
    + replace (S (Z.to_nat (position s - 1))) with (Z.to_nat (position s)) by lia.
      reflexivity.
Qed.

(** The keys of a run that never presses backspace keep the cursor within
    the buffer. *)
Lemma input_handler_loop_cursor v keys :
  Forall (fun k => k <> key_backspace) keys ->
  keeps_cursor (input_handler_loop v keys).
Proof.
  induction 1 as [|k rest Hk _ IH]; intros s Hs; cbn [input_handler_loop].
  - exact Hs.
  - rewrite wp_bind.
    eapply wp_mono; [apply input_handler_step_cursor; [exact Hs |] | | auto].
    + intros Hb. contradiction.
    + intros u s1 H1. now apply IH.
Qed.

(** ** History *)

(** C8 (evaluation of the code): a fresh session in which the operator
    submits [a] twice.  The guard of [add_history] reads [history[1]]
    while the newest entry sits at [history[0]], so the repeat is
    inserted again. *)
Theorem add_history_repeats_latest :
  add_history_list ["a"; empty] "a" = Some ["a"; "a"; empty]
  /\ history (fst (fst (input_handler quiet None ["a"; key_return; "a"; key_return] (init 24))))
     = ["a"; "a"; empty].
Proof. split; vm_compute; reflexivity. Qed.

(** ** Selection indices *)

(** C9 (evaluation of the code): in that session the candidates are
    [a; abc], up-arrow has set the suffix index to 1, and
    [suffix_selection] resets the index only from [len(filtered_history)]
    = 2 on, so it subscripts the one-element list [filtered_history[1:]]
    at 1: [IndexError], which ends the input loop.  The earlier
    definition of the same property, which compares against
    [len(filtered_history[1:])], returns [abc]. *)
Theorem suffix_selection_index_error :
  filtered_history quiet after_up = ["a"; "abc"]
  /\ snd (suffix_selection quiet after_up) = Raise IndexError
  /\ snd (suffix_selection_shadowed quiet after_up) = Val "abc"
  /\ (let '(s, _, r) :=
        input_handler quiet None ["a"; "b"; "c"; key_return; "a"; key_up] (init 24) in
      s = after_up /\ r = Raise IndexError).
Proof. vm_compute. repeat split; reflexivity. Qed.

(** ** Completion candidates *)

Lemma startswith_spec (s p : str) :
  startswith s p = true <-> exists t, s = p ++ t.
Proof.
  unfold startswith. revert s.
  induction p as [|a p IH]; intros s.
  - destruct s; simpl; split; eauto.
  - destruct s as [|b s]; simpl.
    + split; [discriminate | intros [t Ht]; discriminate Ht].
    + destruct (ascii_dec a b) as [->|Hab].
      * rewrite IH. split; intros [t Ht]; exists t.
        -- now rewrite Ht.
        -- now inversion Ht.
      * split; [discriminate | intros [t Ht]; inversion Ht; congruence].
Qed.

Lemma last_of_snoc pre x : last_of (pre ++ [x]) = Some x.
Proof. unfold last_of. rewrite map_app. simpl. apply last_last. Qed.

Lemma nth_error_before pre x r :
  pre <> [] ->
  nth_error (pre ++ x :: r) (List.length pre - 1) = last_of pre.
Proof.
  intros Hne. destruct (exists_last Hne) as [q [y ->]].
  rewrite last_of_snoc, length_app. simpl.
  replace (List.length q + 1 - 1) with (List.length q) by lia.
  rewrite <- app_assoc. simpl.
  rewrite nth_error_app2 by lia. now rewrite Nat.sub_diag.
Qed.

Lemma keep_at_here pre x r :
  keep_at (pre ++ x :: r) (List.length pre) =
  match last_of pre with
  | Some y => if String.eqb x y then [] else [x]
  | None => [x]
  end.
Proof.
  unfold keep_at.
  rewrite nth_error_app2 by lia. rewrite Nat.sub_diag. simpl.
  destruct pre as [|p0 pre'].
  - reflexivity.
  - replace (Nat.eqb (List.length (p0 :: pre')) 0) with false by reflexivity.
    rewrite nth_error_before by discriminate.
    destruct (last_of (p0 :: pre')) eqn:E; [reflexivity |].
    exfalso. destruct (@exists_last _ (p0 :: pre')) as [q [y Hq]]; [discriminate |].
    rewrite Hq, last_of_snoc in E. discriminate.
Qed.

Lemma collapse_from pre l :
  flat_map (keep_at (pre ++ l)) (seq (List.length pre) (List.length l))
  = squeeze (last_of pre) l.
Proof.
  revert pre. induction l as [|x r IH]; intros pre; [reflexivity |].
  cbn [List.length seq flat_map].
  rewrite keep_at_here.
  assert (Hrest :
    flat_map (keep_at (pre ++ x :: r)) (seq (S (List.length pre)) (List.length r))
    = squeeze (Some x) r).
  { specialize (IH (pre ++ [x])%list).
    rewrite <- app_assoc, length_app, last_of_snoc in IH. simpl in IH.
    now rewrite Nat.add_1_r in IH. }
  rewrite Hrest. cbn [squeeze].
  destruct (last_of pre) as [y|]; [destruct (String.eqb x y) |]; reflexivity.
Qed.

(** The comprehension over indices is the one-pass removal of repeats. *)
Lemma collapse_adjacent_squeeze l : collapse_adjacent l = squeeze None l.
Proof. exact (collapse_from [] l). Qed.

Lemma squeeze_subseq l : forall p, subseq (squeeze p l) l.
Proof.
  induction l as [|x r IH]; intros p; cbn [squeeze]; [constructor |].
  destruct p as [y|]; [destruct (String.eqb x y) |]; constructor; apply IH.
Qed.

Lemma squeeze_adjacent_distinct l :
  forall p, adjacent_distinct
              (match p with Some y => y :: squeeze p l | None => squeeze p l end).
Proof.
  induction l as [|x r IH]; intros p.
  - destruct p; exact I.
  - cbn [squeeze]. destruct p as [y|].
    + destruct (String.eqb x y) eqn:E.
      * apply String.eqb_eq in E. subst y. exact (IH (Some x)).
      * apply String.eqb_neq in E. split; [congruence | exact (IH (Some x))].
    + exact (IH (Some x)).
Qed.

Lemma subseq_Forall (P : str -> Prop) l1 l2 :
  subseq l1 l2 -> Forall P l2 -> Forall P l1.
Proof.
  induction 1; intros HF; [constructor | |];
    inversion HF; subst; [| constructor]; auto.
Qed.

(** ** Traces and outcomes

    A second calculus, which keeps the trace and the outcome, for the
    properties that speak of what a method sends or of how it ends. *)

Lemma wpt_bind A B (c : M B) (k : B -> M A) P s :
  wpt (bind c k) P s =
  wpt c (fun s1 ev1 r1 =>
           match r1 with
           | Val b => wpt (k b) (fun s2 ev2 r => P s2 (ev1 ++ ev2)%list r) s1
           | Exit => P s1 ev1 Exit
           | Raise e => P s1 ev1 (Raise e)
           end) s.
Proof.
  unfold wpt, bind. destruct (c s) as [[s1 ev1] [b | | e]]; [| reflexivity ..].
  destruct (k b s1) as [[s2 ev2] r]. reflexivity.
Qed.

Lemma wpt_get P s : wpt get P s = P s [] (Val s).
Proof. reflexivity. Qed.

Lemma wpt_modify f P s : wpt (modify f) P s = P (f s) [] (Val tt).
Proof. reflexivity. Qed.

Lemma wpt_emit e P s : wpt (emit e) P s = P s [e] (Val tt).
Proof. reflexivity. Qed.

Lemma wpt_ret A (a : A) P s : wpt (ret a) P s = P s [] (Val a).
Proof. reflexivity. Qed.

Lemma wpt_raise A e (P : SSHServer -> list event -> res A -> Prop) s :
  wpt (raise e) P s = P s [] (Raise e).
Proof. reflexivity. Qed.

Lemma wpt_exit A (P : SSHServer -> list event -> res A -> Prop) s :
  wpt exit P s = P s [] Exit.
Proof. reflexivity. Qed.

Lemma wpt_elim A (c : M A) P s :
  wpt c P s -> P (state_after c s) (events_of c s) (outcome_of c s).
Proof.
  unfold wpt, state_after, events_of, outcome_of.
  destruct (c s) as [[s1 ev] r]. auto.
Qed.

Lemma wpt_intro A (c : M A) (P : SSHServer -> list event -> res A -> Prop) s :
  P (state_after c s) (events_of c s) (outcome_of c s) -> wpt c P s.
Proof.
  unfold wpt, state_after, events_of, outcome_of.
  destruct (c s) as [[s1 ev] r]. auto.
Qed.

Lemma wpt_mono A (c : M A) (P P' : SSHServer -> list event -> res A -> Prop) s :
  wpt c P' s -> (forall s' ev r, P' s' ev r -> P s' ev r) -> wpt c P s.
Proof. unfold wpt. destruct (c s) as [[s1 ev] r]. auto. Qed.

Ltac wpt_step :=
  first [ rewrite wpt_get | rewrite wpt_modify | rewrite wpt_emit
        | rewrite wpt_ret | rewrite wpt_raise | rewrite wpt_exit
        | rewrite wpt_bind ].
Ltac wpt_run := repeat (wpt_step; cbv beta iota).

(** ** Subscripts and strings *)

Lemma index_in_range A (l : list A) (i : Z) :
  (0 <= i < Z.of_nat (List.length l))%Z ->
  exists x, index l i = Some x /\ In x l.
Proof.
  intros H. unfold index, norm_index.
  destruct (i <? 0)%Z eqn:E0; [apply Z.ltb_lt in E0; lia |].
  destruct ((i <? 0)%Z || (Z.of_nat (List.length l) <=? i)%Z) eqn:E1.
  - apply orb_true_iff in E1. destruct E1 as [E1 | E1];
      [apply Z.ltb_lt in E1 | apply Z.leb_le in E1]; lia.
  - destruct (nth_error l (Z.to_nat i)) as [x|] eqn:En.
    + exists x. split; [reflexivity | eapply nth_error_In; eauto].
    + apply nth_error_None in En. lia.
Qed.

Lemma index_past_end A (l : list A) (i : Z) :
  (Z.of_nat (List.length l) <= i)%Z -> index l i = None.
Proof.
  intros H. unfold index, norm_index.
  destruct (i <? 0)%Z eqn:E0; [apply Z.ltb_lt in E0; lia |].
  destruct ((i <? 0)%Z || (Z.of_nat (List.length l) <=? i)%Z) eqn:E1; [reflexivity |].
  apply orb_false_iff in E1. destruct E1 as [_ E1]. apply Z.leb_gt in E1. lia.
Qed.

Lemma index_In A (l : list A) (i : Z) (x : A) : index l i = Some x -> In x l.
Proof.
  unfold index. destruct (norm_index l i); [| discriminate].
  apply nth_error_In.
Qed.

Lemma insert_in_range A (l : list A) (i : Z) (x : A) :
  (0 <= i <= Z.of_nat (List.length l))%Z ->
  insert l i x = (firstn (Z.to_nat i) l ++ x :: skipn (Z.to_nat i) l)%list.
Proof.
  intros H. unfold insert.
  destruct (i <? 0)%Z eqn:E; [apply Z.ltb_lt in E; lia |].
  now rewrite Z.min_l by lia.
Qed.

Lemma append_empty_r (s : str) : s ++ "" = s.
Proof. induction s as [|c r IH]; [reflexivity | cbn; now rewrite IH]. Qed.

Lemma append_assoc (a b c : str) : (a ++ b) ++ c = a ++ (b ++ c).
Proof. induction a as [|x r IH]; [reflexivity | cbn; now rewrite IH]. Qed.

(** ["".join(list(x)) == x] *)
Lemma join_list_of_str x : join empty (list_of_str x) = x.
Proof.
  unfold join, empty. induction x as [|c r IH]; [reflexivity |].
  cbn [list_of_str String.concat].
  destruct (list_of_str r) as [|y l] eqn:E.
  - destruct r; [reflexivity | discriminate E].
  - rewrite IH. reflexivity.
Qed.

Lemma not_bound_key data k :
  ~ In data bound_keys -> In k bound_keys -> String.eqb data k = false.
Proof.
  intros Hn Hk. apply String.eqb_neq. intros ->. contradiction.
Qed.

(** ** The redraw *)

Lemma same_but_suffix_refl s : same_but_suffix s s.
Proof. repeat split. Qed.

Lemma suffix_selection_spec v s :
  wpt (suffix_selection v)
      (fun s' ev r =>
         same_but_suffix s s' /\ ev = []
         /\ (selected_suffix s' = selected_suffix s \/ selected_suffix s' = 0%Z)
         /\ (r = Raise IndexError
             \/ exists x, r = Val x
                          /\ (x = empty \/ In x (from1 (filtered_history v s)))))
      s.
Proof.
  unfold suffix_selection. wpt_run.
  destruct (Nat.eqb _ 0); wpt_run.
  { split; [apply same_but_suffix_refl |]. split; [reflexivity |].
    split; [now left | right; eauto]. }
  unfold when.
  destruct (_ <=? _)%Z; wpt_run; unfold subscript.
  - change (filtered_history v (set_selected_suffix 0 s)) with (filtered_history v s).
    destruct (index _ _) as [x|] eqn:Hx; wpt_run;
      (split; [repeat split |]); (split; [reflexivity |]);
      (split; [now right |]); [right | now left].
    exists x. split; [reflexivity | right; eapply index_In; eauto].
  - destruct (index _ _) as [x|] eqn:Hx; wpt_run;
      (split; [repeat split |]); (split; [reflexivity |]);
      (split; [now left |]); [right | now left].
    exists x. split; [reflexivity | right; eapply index_In; eauto].
Qed.

Lemma suffix_spec v s :
  wpt (suffix v)
      (fun s' ev r =>
         same_but_suffix s s' /\ ev = []
         /\ (selected_suffix s' = selected_suffix s \/ selected_suffix s' = 0%Z)
         /\ (r = Raise IndexError \/ exists x, r = Val x))
      s.
Proof.
  unfold suffix. wpt_run.
  destruct (Nat.eqb _ 0); wpt_run.
  { split; [apply same_but_suffix_refl |]. split; [reflexivity |].
    split; [now left | right; eauto]. }
  eapply wpt_mono; [apply suffix_selection_spec |].
  intros s1 ev1 r1 (Hsame & -> & Hsel & Hr). cbv beta.
  destruct r1 as [x | | e].
  - wpt_run. repeat split; try apply Hsame; auto. right. eauto.
  - destruct Hr as [Hr | (x & Hr & _)]; discriminate Hr.
  - destruct Hr as [Hr | (x & Hr & _)]; [| discriminate Hr].
    repeat split; try apply Hsame; auto.
Qed.

Lemma redraw_buffer_spec v s :
  wpt (redraw_buffer v)
      (fun s' ev r =>
         same_but_suffix s s'
         /\ (selected_suffix s' = selected_suffix s \/ selected_suffix s' = 0%Z)
         /\ (r = Val tt \/ r = Raise IndexError)
         /\ upstream ev = [])
      s.
Proof.
  unfold redraw_buffer, send_to_client. wpt_run.
  eapply wpt_mono; [apply suffix_spec |].
  intros s1 ev1 r1 (Hsame & -> & Hsel & Hr). cbv beta.
  destruct r1 as [x | | e].
  - wpt_run. repeat split; try apply Hsame; auto.
  - destruct Hr as [Hr | (x & Hr)]; discriminate Hr.
  - destruct Hr as [Hr | (x & Hr)]; [| discriminate Hr].
    injection Hr as ->. repeat split; try apply Hsame; auto.
Qed.

Lemma wpt_redraw v (P : SSHServer -> list event -> res unit -> Prop) s :
  (forall s' ev r, same_but_suffix s s' -> P s' ev r) ->
  wpt (redraw_buffer v) P s.
Proof.
  intros H. eapply wpt_mono; [apply redraw_buffer_spec |].
  intros s' ev r (Hsame & _). now apply H.
Qed.

(** ** Submitting a line *)

(** X2: whenever [send_command] returns on a non-empty buffer, the line is
    cleared and the cursor and both selection indices are 0. *)
Theorem send_command_resets s s' ev :
  buffer s <> [] ->
  send_command s = (s', ev, Val tt) ->
  buffer s' = [] /\ position s' = 0%Z /\ selected s' = 0%Z /\ selected_suffix s' = 0%Z.
Proof.
  intros Hne Hrun.
  assert (H : wp send_command
                 (fun _ s1 => buffer s1 = [] /\ position s1 = 0%Z
                              /\ selected s1 = 0%Z /\ selected_suffix s1 = 0%Z)
                 (fun _ => True) s).
  { unfold send_command. wp_run.
    rewrite (length_zero_eqb Hne).
    unfold add_history. wp_run.
    destruct (add_history_list _ _) as [h|]; wp_run; [| exact I].
    unfold when. destruct (String.eqb (buffer_str s) "reload"); wp_run.
    - unfold wp. lazy. repeat split.
    - change (buffer_str (set_history h s)) with (buffer_str s).
      destruct (String.eqb _ "exit"); [unfold close; wp_run; exact I |].
      destruct (str_in _ _); [unfold send_to_client; wp_run; repeat split |].
      destruct (String.eqb _ "reset"); [unfold send_to_client; wp_run; repeat split |].
      destruct (strip _); [wp_run; exact I |].
      destruct (Ascii.eqb _ _); unfold send_to_client; wp_run; repeat split. }
  unfold wp in H. rewrite Hrun in H. exact H.
Qed.

Lemma send_command_resets_witness :
  buffer typed_reload <> []
  /\ position (state_after send_command typed_reload) = 0%Z.
Proof.
  assert (Hne : buffer typed_reload <> []) by discriminate.
  split; [exact Hne |].
  exact (proj1 (proj2 (@send_command_resets typed_reload _ _ Hne eq_refl))).
Defined.

(** X3: one submit forwards at most one line upstream, and none at all
    for the lines [exit], [clear], [cls] and [reset], which are handled in
    the session. *)
Theorem send_command_upstream s :
  (List.length (upstream (events_of send_command s)) <= 1)%nat
  /\ (str_in (buffer_str s) ["exit"; "clear"; "cls"; "reset"] = true ->
      upstream (events_of send_command s) = []).
Proof.
  apply (@wpt_elim _ send_command
           (fun _ ev _ => (List.length (upstream ev) <= 1)%nat
                          /\ (str_in (buffer_str s) ["exit"; "clear"; "cls"; "reset"] = true ->
                              upstream ev = []))).
  unfold send_command. wpt_run.
  destruct (Nat.eqb _ 0); wpt_run; [split; [simpl; lia | reflexivity] |].
  unfold add_history. wpt_run.
  destruct (add_history_list _ _) as [h|]; wpt_run; [| split; [simpl; lia | reflexivity]].
  unfold when. destruct (String.eqb (buffer_str s) "reload") eqn:Er; wpt_run.
  - apply String.eqb_eq in Er. rewrite Er. unfold wpt. lazy. split; [lia | discriminate].
  - change (buffer_str (set_history h s)) with (buffer_str s).
    cbn [str_in existsb].
    destruct (String.eqb (buffer_str s) "exit") eqn:E1;
      [unfold close; wpt_run; split; [simpl; lia | reflexivity] |].
    destruct (String.eqb (buffer_str s) "clear") eqn:E2;
      [unfold send_to_client; wpt_run; split; [simpl; lia | reflexivity] |].
    destruct (String.eqb (buffer_str s) "cls") eqn:E3;
      [unfold send_to_client; wpt_run; split; [simpl; lia | reflexivity] |].
    cbn [orb].
    destruct (String.eqb (buffer_str s) "reset") eqn:E4;
      [unfold send_to_client; wpt_run; split; [simpl; lia | reflexivity] |].
    destruct (strip (buffer_str s)); [wpt_run; split; [simpl; lia | discriminate] |].
    destruct (Ascii.eqb _ _); unfold send_to_client; wpt_run;
      (split; [simpl; lia | discriminate]).
Qed.

(** X4: a line made of whitespace only is put into the history, the
    history file is rewritten, and [send_command] then raises [IndexError]
    (from [self.buffer_str.strip()[0]]) before the reset: the blank line
    stays in the buffer. *)
Theorem send_command_blank_raises s h :
  buffer s <> [] ->
  strip (buffer_str s) = empty ->
  add_history_list (history s) (buffer_str s) = Some h ->
  send_command s =
    (set_history h s, [SaveHistory (join NL (from1 h))], Raise IndexError).
Proof.
  intros Hne Hblank Hh.
  assert (Hnot : forall w, strip w <> empty -> String.eqb (buffer_str s) w = false).
  { intros w Hw. apply String.eqb_neq. intros E. apply Hw. now rewrite <- E. }
  unfold send_command, bind at 1, get.
  rewrite (length_zero_eqb Hne).
  unfold add_history, bind, get, modify, emit, when, ret, raise. rewrite Hh.
  rewrite (Hnot "reload") by discriminate. cbn [fst snd].
  change (buffer_str (set_history h s)) with (buffer_str s).
  unfold str_in, existsb.
  rewrite (Hnot "exit"), (Hnot "clear"), (Hnot "cls"), (Hnot "reset") by discriminate.
  cbn [orb]. rewrite Hblank. reflexivity.
Qed.

Lemma send_command_blank_raises_witness :
  let s := mkSSHServer [" "] [empty] 1 0 0 " " 24 in
  buffer s <> [] /\ strip (buffer_str s) = empty
  /\ send_command s = (set_history [" "; empty] s, [SaveHistory empty], Raise IndexError).
Proof.
  cbv zeta. split; [discriminate | split; [reflexivity |]].
  apply (@send_command_blank_raises (mkSSHServer [" "] [empty] 1 0 0 " " 24) [" "; empty]);
    [discriminate | reflexivity | reflexivity].
Defined.

(** ** Walking the history *)

(** X8: an up-arrow with an empty filter never raises: the history index
    moves one entry up, stopping at the last candidate; the buffer shows the
    entry at the new index and the cursor stands at its end; filter and
    history are untouched. *)
Theorem previous_command_history v s :
  filter s = empty ->
  (0 <= selected s)%Z ->
  let s' := state_after (previous_command v) s in
  outcome_of (previous_command v) s = Val tt
  /\ selected s' = Z.min (candidates v s - 1) (selected s + 1)
  /\ index (filtered_history v s) (selected s') = Some (buffer_str s')
  /\ position s' = Z.of_nat (List.length (buffer s'))
  /\ filter s' = filter s /\ history s' = history s.
Proof.
  intros Hf Hs. cbv zeta.
  apply (@wpt_elim _ (previous_command v)
           (fun s' _ r =>
              r = Val tt
              /\ selected s' = Z.min (candidates v s - 1) (selected s + 1)
              /\ index (filtered_history v s) (selected s') = Some (buffer_str s')
              /\ position s' = Z.of_nat (List.length (buffer s'))
              /\ filter s' = filter s /\ history s' = history s)).
  unfold previous_command. wpt_run.
  rewrite Hf. change (String.eqb empty empty) with true. cbv iota. wpt_run.
  fold (candidates v s).
  set (i := Z.min (candidates v s - 1) (selected s + 1)).
  change (filtered_history v (set_selected i s)) with (filtered_history v s).
  cbn [selected set_selected].
  destruct (@index_in_range _ (filtered_history v s) i) as [x [Hx _]].
  { unfold i, candidates.
    assert (1 <= List.length (filtered_history v s))%nat by (simpl; lia). lia. }
  unfold subscript. rewrite Hx. wpt_run.
  repeat split; try reflexivity.
  - cbn. rewrite Hx. f_equal. symmetry. apply join_list_of_str.
  - cbn. now rewrite Hf.
Qed.

Lemma previous_command_history_witness :
  filter (init 24) = empty /\ (0 <= selected (init 24))%Z
  /\ outcome_of (previous_command quiet) (init 24) = Val tt.
Proof.
  assert (H1 : filter (init 24) = empty) by reflexivity.
  assert (H2 : (0 <= selected (init 24))%Z) by (simpl; lia).
  split; [exact H1 | split; [exact H2 |]].
  exact (proj1 (@previous_command_history quiet (init 24) H1 H2)).
Defined.

Lemma filtered_history_empty_filter v s s' :
  filter s = empty -> filter s' = empty -> history s' = history s ->
  filtered_history v s' = filtered_history v s.
Proof.
  intros Hf Hf' Hh.
  unfold filtered_history, candidate_pool, player_suggestions.
  rewrite Hf, Hf', Hh. reflexivity.
Qed.

(** X9: with an empty filter and an entry above the selected one, an
    up-arrow followed by a down-arrow comes back to the index it started
    from, shows the entry at that index and leaves the cursor at its end. *)
Theorem up_then_down v s :
  filter s = empty ->
  (0 <= selected s)%Z ->
  (selected s + 1 <= candidates v s - 1)%Z ->
  let c := previous_command v ;; next_command v in
  outcome_of c s = Val tt
  /\ selected (state_after c s) = selected s
  /\ index (filtered_history v s) (selected s) = Some (buffer_str (state_after c s))
  /\ position (state_after c s) = Z.of_nat (List.length (buffer (state_after c s))).
Proof.
  intros Hf Hs Hn. cbv zeta.
  apply (@wpt_elim _ (previous_command v ;; next_command v)
           (fun s' _ r =>
              r = Val tt
              /\ selected s' = selected s
              /\ index (filtered_history v s) (selected s) = Some (buffer_str s')
              /\ position s' = Z.of_nat (List.length (buffer s')))).
  rewrite wpt_bind. unfold previous_command. wpt_run.
  rewrite Hf. change (String.eqb empty empty) with true. cbv iota. wpt_run.
  fold (candidates v s).
  replace (Z.min (candidates v s - 1) (selected s + 1)) with (selected s + 1)%Z by lia.
  change (filtered_history v (set_selected (selected s + 1) s)) with (filtered_history v s).
  cbn [selected set_selected].
  destruct (@index_in_range _ (filtered_history v s) (selected s + 1)) as [x [Hx _]];
    [unfold candidates in Hn; lia |].
  unfold subscript. rewrite Hx. wpt_run.
  set (s1 := set_position _ _).
  unfold next_command. wpt_run.
  assert (Hsel : selected s1 = (selected s + 1)%Z) by reflexivity.
  assert (Hfil : filter s1 = empty) by exact Hf.
  rewrite Hsel, Hfil.
  replace (selected s + 1 =? 0)%Z with false by (symmetry; apply Z.eqb_neq; lia).
  change (String.eqb empty empty) with true. cbn [andb]. wpt_run.
  replace (Z.max 0 (selected s + 1 - 1)) with (selected s) by lia.
  set (s2 := set_selected (selected s) s1).
  assert (Hfh : filtered_history v s2 = filtered_history v s).
  { apply filtered_history_empty_filter; [exact Hf | exact Hf | reflexivity]. }
  rewrite Hfh. change (selected s2) with (selected s).
  destruct (@index_in_range _ (filtered_history v s) (selected s)) as [y [Hy _]];
    [unfold candidates in Hn; lia |].
  unfold subscript. rewrite Hy. wpt_run. repeat split.
  f_equal. symmetry. exact (join_list_of_str y).
Qed.

Lemma up_then_down_witness :
  let s := mkSSHServer [] ["ls"; empty] 0 0 0 empty 24 in
  filter s = empty /\ (0 <= selected s)%Z
  /\ (selected s + 1 <= candidates quiet s - 1)%Z
  /\ selected (state_after (previous_command quiet ;; next_command quiet) s) = selected s.
Proof.
  cbv zeta.
  assert (H1 : filter (mkSSHServer [] ["ls"; empty] 0 0 0 empty 24) = empty) by reflexivity.
  assert (H2 : (0 <= selected (mkSSHServer [] ["ls"; empty] 0 0 0 empty 24))%Z)
    by (simpl; lia).
  assert (H3 : (selected (mkSSHServer [] ["ls"; empty] 0 0 0 empty 24) + 1
                <= candidates quiet (mkSSHServer [] ["ls"; empty] 0 0 0 empty 24) - 1)%Z)
    by (vm_compute; discriminate).
  split; [exact H1 | split; [exact H2 | split; [exact H3 |]]].
  exact (proj1 (proj2 (@up_then_down quiet _ H1 H2 H3))).
Defined.

(** ** Editing keys *)

(** X10: a key that has no branch of its own is inserted at the cursor,
    the cursor moves one to the right, the filter becomes the new line and
    the history is untouched. *)
Theorem typed_key_inserted v data s :
  ~ In data bound_keys ->
  cursor_in_range s ->
  let s' := state_after (input_handler_step v data) s in
  buffer s' = (firstn (Z.to_nat (position s)) (buffer s)
               ++ data :: skipn (Z.to_nat (position s)) (buffer s))%list
  /\ position s' = (position s + 1)%Z
  /\ filter s' = buffer_str s'
  /\ history s' = history s.
Proof.
  intros Hk Hc. cbv zeta.
  apply (@wpt_elim _ (input_handler_step v data)
           (fun s' _ _ =>
              buffer s' = (firstn (Z.to_nat (position s)) (buffer s)
                           ++ data :: skipn (Z.to_nat (position s)) (buffer s))%list
              /\ position s' = (position s + 1)%Z
              /\ filter s' = buffer_str s'
              /\ history s' = history s)).
  unfold input_handler_step.
  rewrite !(not_bound_key Hk) by (unfold bound_keys; simpl; tauto).
  unfold update_filter. wpt_run.
  apply wpt_redraw. intros s' ev r (Hb & Hh & Hp & _ & Hf & _). wpt_run.
  unfold buffer_str. rewrite Hb, Hp, Hf, Hh. cbn.
  rewrite insert_in_range by exact Hc. repeat split.
Qed.

Lemma typed_key_inserted_witness :
  ~ In "b" bound_keys /\ cursor_in_range (mkSSHServer ["a"; "c"] [empty] 1 0 0 "ac" 24)
  /\ buffer (state_after (input_handler_step quiet "b")
                         (mkSSHServer ["a"; "c"] [empty] 1 0 0 "ac" 24))
     = ["a"; "b"; "c"].
Proof.
  assert (H1 : ~ In "b" bound_keys).
  { unfold bound_keys. simpl. intros H.
    repeat (destruct H as [H | H]; [discriminate H |]). exact H. }
  assert (H2 : cursor_in_range (mkSSHServer ["a"; "c"] [empty] 1 0 0 "ac" 24))
    by (unfold cursor_in_range; simpl; lia).
  split; [exact H1 | split; [exact H2 |]].
  exact (proj1 (@typed_key_inserted quiet "b" _ H1 H2)).
Defined.

(** X11: the Delete key removes the entry under the cursor, or nothing
    when the cursor is at the end of the line; the cursor stays where it was
    and the filter becomes the new line. *)
Theorem delete_forward v s :
  cursor_in_range s ->
  let s' := state_after (input_handler_step v key_delete) s in
  buffer s' = (firstn (Z.to_nat (position s)) (buffer s)
               ++ skipn (S (Z.to_nat (position s))) (buffer s))%list
  /\ position s' = position s
  /\ filter s' = buffer_str s'.
Proof.
  intros Hc. cbv zeta.
  apply (@wpt_elim _ (input_handler_step v key_delete)
           (fun s' _ _ =>
              buffer s' = (firstn (Z.to_nat (position s)) (buffer s)
                           ++ skipn (S (Z.to_nat (position s))) (buffer s))%list
              /\ position s' = position s
              /\ filter s' = buffer_str s')).
  unfold input_handler_step.
  change (String.eqb key_delete key_return) with false.
  change (String.eqb key_delete key_backspace) with false.
  change (String.eqb key_delete key_interrupt) with false.
  change (String.eqb key_delete key_up) with false.
  change (String.eqb key_delete key_down) with false.
  change (String.eqb key_delete key_left) with false.
  change (String.eqb key_delete key_right) with false.
  change (String.eqb key_delete key_tab) with false.
  change (String.eqb key_delete key_delete) with true.
  cbv iota. wpt_run. unfold when, update_filter.
  destruct (position s <? _)%Z eqn:Ep.
  - apply Z.ltb_lt in Ep. unfold buffer_pop. wpt_run.
    unfold pop, norm_index.
    destruct (position s <? 0)%Z eqn:E0;
      [apply Z.ltb_lt in E0; unfold cursor_in_range in Hc; lia |].
    destruct ((position s <? 0)%Z
              || (Z.of_nat (List.length (buffer s)) <=? position s)%Z) eqn:E1.
    { apply orb_true_iff in E1. destruct E1 as [E1 | E1];
        [apply Z.ltb_lt in E1 | apply Z.leb_le in E1];
        unfold cursor_in_range in Hc; lia. }
    wpt_run. apply wpt_redraw. intros s' ev r (Hb & _ & Hp & _ & Hf & _).
    unfold buffer_str. rewrite Hb, Hp, Hf. repeat split.
  - apply Z.ltb_ge in Ep. wpt_run.
    assert (Hl : (firstn (Z.to_nat (position s)) (buffer s)
                  ++ skipn (S (Z.to_nat (position s))) (buffer s))%list = buffer s).
    { rewrite firstn_all2, skipn_all2 by lia. apply app_nil_r. }
    apply wpt_redraw. intros s' ev r (Hb & _ & Hp & _ & Hf & _).
    rewrite Hl. unfold buffer_str. rewrite Hb, Hp, Hf. repeat split.
Qed.

Lemma delete_forward_witness :
  cursor_in_range (mkSSHServer ["a"; "b"] [empty] 0 0 0 "ab" 24)
  /\ buffer (state_after (input_handler_step quiet key_delete)
                         (mkSSHServer ["a"; "b"] [empty] 0 0 0 "ab" 24)) = ["b"].
Proof.
  assert (H : cursor_in_range (mkSSHServer ["a"; "b"] [empty] 0 0 0 "ab" 24))
    by (unfold cursor_in_range; simpl; lia).
  split; [exact H | exact (proj1 (@delete_forward quiet _ H))].
Defined.

(** X12: the Backspace key with the cursor past the first column removes
    the entry before the cursor and moves the cursor one to the left; the
    filter becomes the new line. *)
Theorem backspace_key v s :
  (0 < position s <= Z.of_nat (List.length (buffer s)))%Z ->
  let s' := state_after (input_handler_step v key_backspace) s in
  buffer s' = (firstn (Z.to_nat (position s - 1)) (buffer s)
               ++ skipn (Z.to_nat (position s)) (buffer s))%list
  /\ position s' = (position s - 1)%Z
  /\ filter s' = buffer_str s'.
Proof.
  intros Hp. cbv zeta.
  apply (@wpt_elim _ (input_handler_step v key_backspace)
           (fun s' _ _ =>
              buffer s' = (firstn (Z.to_nat (position s - 1)) (buffer s)
                           ++ skipn (Z.to_nat (position s)) (buffer s))%list
              /\ position s' = (position s - 1)%Z
              /\ filter s' = buffer_str s')).
  unfold input_handler_step.
  change (String.eqb key_backspace key_return) with false.
  change (String.eqb key_backspace key_backspace) with true.
  cbv iota. rewrite wpt_bind, wpt_bind.
  unfold wpt at 1. rewrite (proj2 (backspace_before_cursor s) Hp).
  unfold update_filter. wpt_run.
  apply wpt_redraw. intros s' ev r (Hb & _ & Hp' & _ & Hf & _).
  unfold buffer_str. rewrite Hb, Hp', Hf. repeat split.
Qed.

Lemma backspace_key_witness :
  let s := mkSSHServer ["a"; "b"] [empty] 2 0 0 "ab" 24 in
  (0 < position s <= Z.of_nat (List.length (buffer s)))%Z
  /\ buffer (state_after (input_handler_step quiet key_backspace) s) = ["a"].
Proof.
  cbv zeta.
  assert (H : (0 < position (mkSSHServer ["a"; "b"] [empty] 2 0 0 "ab" 24)
               <= Z.of_nat (List.length
                              (buffer (mkSSHServer ["a"; "b"] [empty] 2 0 0 "ab" 24))))%Z)
    by (simpl; lia).
  split; [exact H | exact (proj1 (@backspace_key quiet _ H))].
Defined.

(** X13: when [accept_completion] (Tab, or right-arrow at the end of the
    line) returns, the line is the completion that was selected (one of the
    candidates after the first, or empty when there is none), the filter is
    that line, the cursor stands at its end and the history is untouched. *)
Theorem accept_completion_result v s :
  outcome_of (accept_completion v) s = Val tt ->
  let s' := state_after (accept_completion v) s in
  (buffer_str s' = empty \/ In (buffer_str s') (from1 (filtered_history v s)))
  /\ filter s' = buffer_str s'
  /\ position s' = Z.of_nat (List.length (buffer s'))
  /\ history s' = history s.
Proof.
  cbv zeta.
  apply (@wpt_elim _ (accept_completion v)
           (fun s' _ r =>
              r = Val tt ->
              (buffer_str s' = empty \/ In (buffer_str s') (from1 (filtered_history v s)))
              /\ filter s' = buffer_str s'
              /\ position s' = Z.of_nat (List.length (buffer s'))
              /\ history s' = history s)).
  unfold accept_completion. wpt_run.
  eapply wpt_mono; [apply suffix_selection_spec |].
  intros s1 ev1 r1 (Hsame & _ & _ & Hr). cbv beta.
  destruct r1 as [sel | | e]; [| discriminate ..].
  unfold update_filter. wpt_run.
  apply wpt_redraw. intros s2 ev2 r2 (Hb & Hh & Hp & _ & Hf & _).
  destruct r2 as [[] | | e]; [| discriminate ..]. intros _.
  destruct Hsame as (_ & Hh1 & _).
  unfold buffer_str. rewrite Hb, Hh, Hp, Hf. cbn.
  rewrite join_list_of_str.
  destruct Hr as [Hr | [x [[= ->] Hx]]]; [discriminate Hr |].
  repeat split; auto.
Qed.

Lemma accept_completion_result_witness :
  let s := mkSSHServer ["a"] ["abc"; empty] 1 0 0 "a" 24 in
  outcome_of (accept_completion quiet) s = Val tt
  /\ buffer_str (state_after (accept_completion quiet) s) = "abc".
Proof.
  cbv zeta.
  assert (H : outcome_of (accept_completion quiet)
                (mkSSHServer ["a"] ["abc"; empty] 1 0 0 "a" 24) = Val tt)
    by reflexivity.
  split; [exact H |].
  destruct (@accept_completion_result quiet _ H) as (_ & Hf & _).
  rewrite <- Hf. reflexivity.
Defined.

(** X14: [input_handler], started in any session and on any history
    file, leaves the cursor within the buffer after any sequence of keys
    that holds no Backspace, however the loop ends. *)
Theorem input_handler_cursor v file keys s :
  Forall (fun k => k <> key_backspace) keys ->
  cursor_in_range (state_after (input_handler v file keys) s).
Proof.
  intros Hk.
  assert (H : wp (input_handler v file keys) (fun _ => cursor_in_range) cursor_in_range s).
  { unfold input_handler, input_handler_setup, load_history, send_to_client.
    wp_run. destruct file as [text|]; wp_run;
      apply input_handler_loop_cursor; auto; unfold cursor_in_range; cbn; lia. }
  unfold wp in H. unfold state_after.
  destruct (input_handler v file keys s) as [[s1 ev] [a | | e]]; exact H.
Qed.

Lemma input_handler_cursor_witness :
  Forall (fun k => k <> key_backspace) ["a"; key_left; key_delete]
  /\ cursor_in_range
       (state_after (input_handler quiet None ["a"; key_left; key_delete]) (init 24)).
Proof.
  assert (H : Forall (fun k => k <> key_backspace) ["a"; key_left; key_delete])
    by (repeat constructor; discriminate).
  split; [exact H | exact (@input_handler_cursor quiet None _ (init 24) H)].
Defined.

(** ** The history file *)

Lemma split_no_sep (x : str) :
  has_char newline x = false -> split newline x = [x].
Proof.
  induction x as [|c r IH]; [reflexivity |].
  cbn [has_char split]. intros H. apply orb_false_iff in H. destruct H as [Hc Hr].
  rewrite Ascii.eqb_sym, Hc. now rewrite IH.
Qed.

Lemma split_append (x y : str) :
  has_char newline x = false ->
  split newline (x ++ String newline y) = x :: split newline y.
Proof.
  induction x as [|c r IH]; intros H.
  - cbn [append split]. now rewrite Ascii.eqb_refl.
  - cbn [has_char] in H. apply orb_false_iff in H. destruct H as [Hc Hr].
    cbn [append split]. rewrite Ascii.eqb_sym, Hc. now rewrite IH.
Qed.

(** [NL.join(l).split(NL) == l] for entries that hold no newline. *)
Lemma split_join (l : list str) :
  l <> [] -> Forall (fun x => has_char newline x = false) l ->
  split newline (join NL l) = l.
Proof.
  unfold join, NL, chr. fold newline.
  induction l as [|x r IH]; [congruence |]. intros _ HF.
  inversion HF as [|? ? Hx Hr]; subst.
  destruct r as [|y r'].
  - cbn [String.concat]. now apply split_no_sep.
  - change (String.concat (String newline "") (x :: y :: r'))
      with (x ++ String newline (String.concat (String newline "") (y :: r'))).
    rewrite split_append by exact Hx. f_equal. apply IH; [discriminate | exact Hr].
Qed.

Lemma add_history_list_two h cmd h' :
  add_history_list h cmd = Some h' -> from1 h' <> [].
Proof.
  unfold add_history_list. destruct h as [|a [|b r]]; [discriminate | |].
  - intros [= <-]. discriminate.
  - destruct (String.eqb b cmd); intros [= <-]; discriminate.
Qed.

(** A text without carriage returns is read as it is. *)
Lemma universal_newlines_plain (x : str) :
  has_char carriage_return x = false -> universal_newlines x = x.
Proof.
  induction x as [|c r IH]; [reflexivity |].
  cbn [has_char universal_newlines]. intros H.
  apply orb_false_iff in H. destruct H as [Hc Hr].
  rewrite Ascii.eqb_sym in Hc. fold carriage_return. rewrite Hc.
  now rewrite IH.
Qed.

Lemma has_char_append c (x y : str) :
  has_char c (x ++ y) = has_char c x || has_char c y.
Proof.
  induction x as [|d r IH]; [reflexivity |].
  cbn [append has_char]. rewrite IH. now rewrite orb_assoc.
Qed.

Lemma has_char_join c (l : list str) :
  has_char c NL = false ->
  Forall (fun x => has_char c x = false) l ->
  has_char c (join NL l) = false.
Proof.
  intros Hc. unfold join. induction l as [|x r IH]; intros HF; [reflexivity |].
  inversion HF as [|? ? Hx Hr]; subst.
  destruct r as [|y r']; [exact Hx |].
  change (String.concat NL (x :: y :: r'))
    with (x ++ NL ++ String.concat NL (y :: r')).
  rewrite !has_char_append, Hx, Hc, IH by exact Hr. reflexivity.
Qed.

(** X15: what [add_history] writes to history.txt, [load_history] reads
    back as the history without its first entry, provided no entry written
    holds a line feed or a carriage return (the file is read in text mode,
    where a carriage return comes back as a line feed and splits the
    entry). *)
Theorem history_save_load cmd s h' s0 :
  add_history_list (history s) cmd = Some h' ->
  Forall (fun x => has_char newline x = false) (from1 h') ->
  Forall (fun x => has_char carriage_return x = false) (from1 h') ->
  exists text,
    add_history cmd s = (set_history h' s, [SaveHistory text], Val tt)
    /\ load_history (Some text) s0 = (set_history (from1 h') s0, [], Val tt).
Proof.
  intros Hh HF HC. exists (join NL (from1 h')). split.
  - unfold add_history, bind, get, modify, emit. rewrite Hh. reflexivity.
  - unfold load_history, modify. fold newline.
    rewrite universal_newlines_plain by (apply has_char_join; [reflexivity | exact HC]).
    rewrite split_join; [reflexivity | eapply add_history_list_two; eauto | exact HF].
Qed.

Lemma history_save_load_witness :
  add_history_list (history (init 24)) "list" = Some ["list"; empty]
  /\ exists text,
       add_history "list" (init 24)
       = (set_history ["list"; empty] (init 24), [SaveHistory text], Val tt)
       /\ load_history (Some text) (init 24)
          = (set_history [empty] (init 24), [], Val tt).
Proof.
  assert (H1 : add_history_list (history (init 24)) "list" = Some ["list"; empty])
    by reflexivity.
  split; [exact H1 |].
  apply (@history_save_load "list" (init 24) ["list"; empty] (init 24) H1);
    repeat constructor.
Defined.

(** An entry that holds a carriage return does not come back: the key
    made of the bytes ESC, CR, [A] is one buffer entry, and a history entry
    it stands in is read back as two. *)
Lemma history_carriage_return_splits :
  let line := ESC ++ chr 13 ++ "A" in
  let s := set_history [line; empty] (init 24) in
  exists text,
    add_history "x" s
    = (set_history ["x"; line; empty] s, [SaveHistory text], Val tt)
    /\ load_history (Some text) (init 24)
       = (set_history [ESC; "A"; empty] (init 24), [], Val tt).
Proof. cbv zeta. eexists. split; reflexivity. Qed.

(** ** The coloured line *)

Lemma join_cons (x : str) (rest : list str) :
  join " " (x :: rest) = x ++ after_first rest.
Proof.
  unfold join. destruct rest; cbn [String.concat after_first];
    [now rewrite append_empty_r | reflexivity].
Qed.

Lemma split_nonempty c s : exists p0 rest, split c s = p0 :: rest.
Proof.
  induction s as [|d r (p0 & rest & IH)]; [now exists EmptyString, [] |].
  cbn [split]. destruct (Ascii.eqb d c); [eauto |]. rewrite IH. eauto.
Qed.

(** [" ".join(s.split(" ")) == s] *)
Lemma join_split s : join " " (split " " s) = s.
Proof.
  induction s as [|d r IH]; [reflexivity |].
  cbn [split]. destruct (Ascii.eqb d " ") eqn:E.
  - apply Ascii.eqb_eq in E. subst d.
    destruct (split_nonempty " " r) as (p0 & rest & Hs). rewrite Hs in *.
    rewrite join_cons. cbn [after_first]. rewrite IH. reflexivity.
  - destruct (split_nonempty " " r) as (p0 & rest & Hs). rewrite Hs in *.
    rewrite join_cons in *. cbn [append]. now rewrite IH.
Qed.

Lemma map_last_snoc f l x : map_last f (l ++ [x]) = (l ++ [f x])%list.
Proof.
  unfold map_last. rewrite rev_app_distr. cbn [rev app map_first].
  rewrite rev_involutive. reflexivity.
Qed.

Lemma join_snoc_suffix l x suf :
  join " " (l ++ [x ++ suf]) = join " " (l ++ [x]) ++ suf.
Proof.
  induction l as [|y r IH]; [reflexivity |].
  cbn [app]. rewrite !join_cons.
  destruct r as [|z r']; cbn [app after_first] in *.
  - cbn. rewrite !append_assoc. reflexivity.
  - rewrite IH. now rewrite !append_assoc.
Qed.

Lemma join_map_last suf l :
  l <> [] -> join " " (map_last (fun p => p ++ suf) l) = join " " l ++ suf.
Proof.
  intros Hne. destruct (exists_last Hne) as (l' & x & ->).
  rewrite map_last_snoc. apply join_snoc_suffix.
Qed.

(** X16: what [buffer_formatted] shows for a non-empty buffer is the text
    of the buffer with colour codes added and nothing else changed: either
    the whole line between bold cyan and reset (a broadcast), or the first
    word between one of three colours and reset, followed by the rest of the
    line as typed. *)
Theorem buffer_formatted_text v s :
  buffer s <> [] ->
  exists p0 rest,
    split " " (buffer_str s) = p0 :: rest
    /\ buffer_str s = p0 ++ after_first rest
    /\ (buffer_formatted v s = SGR "1;36" ++ buffer_str s ++ SGR "0"
        \/ exists colour,
             In colour ["1;34"; "1;32"; "1;31"]
             /\ buffer_formatted v s = SGR colour ++ p0 ++ SGR "0" ++ after_first rest).
Proof.
  intros Hne.
  destruct (split_nonempty " " (buffer_str s)) as (p0 & rest & Hs).
  exists p0, rest. split; [exact Hs |].
  assert (Hj : buffer_str s = p0 ++ after_first rest).
  { rewrite <- (join_split (buffer_str s)), Hs. apply join_cons. }
  split; [exact Hj |].
  unfold buffer_formatted. rewrite (length_zero_eqb Hne), Hs. cbn [hd].
  destruct (negb _ && _).
  - left. rewrite join_map_last by discriminate.
    cbn [map_first]. rewrite join_cons, Hj. now rewrite !append_assoc.
  - right. destruct (str_in _ _).
    + exists "1;34". split; [simpl; tauto |]. cbn [map_first].
      rewrite join_cons. now rewrite !append_assoc.
    + destruct (_ || _).
      * exists "1;32". split; [simpl; tauto |]. cbn [map_first].
        rewrite join_cons. now rewrite !append_assoc.
      * exists "1;31". split; [simpl; tauto |]. cbn [map_first].
        rewrite join_cons. now rewrite !append_assoc.
Qed.

Lemma buffer_formatted_text_witness :
  buffer typed_reload <> []
  /\ exists p0 rest,
       split " " (buffer_str typed_reload) = p0 :: rest
       /\ buffer_str typed_reload = p0 ++ after_first rest.
Proof.
  assert (Hne : buffer typed_reload <> []) by discriminate.
  split; [exact Hne |].
  destruct (@buffer_formatted_text quiet typed_reload Hne) as (p0 & rest & H1 & H2 & _).
  exists p0, rest. split; [exact H1 | exact H2].
Defined.

(** ** The hook of the relay *)

Lemma take_drop n s : take_str n s ++ drop_str n s = s.
Proof.
  revert s. induction n as [|n IH]; intros s; [reflexivity |].
  destruct s as [|c r]; [reflexivity |]. cbn. now rewrite IH.
Qed.

Lemma len_drop n s : len (drop_str n s) = (len s - n)%nat.
Proof.
  revert s. induction n as [|n IH]; intros s; [cbn; unfold len; lia |].
  destruct s as [|c r]; [reflexivity |]. cbn. apply IH.
Qed.

Lemma len_take n s : len (take_str n s) = Nat.min n (len s).
Proof.
  revert s. induction n as [|n IH]; intros s; [reflexivity |].
  destruct s as [|c r]; [reflexivity |]. cbn. f_equal. apply IH.
Qed.

(** [s[:w] + s[w:] == s] *)
Lemma slice_split s w : slice_to s w ++ slice_from s w = s.
Proof. apply take_drop. Qed.

Lemma concat_empty_cons (x : str) (l : list str) :
  String.concat "" (x :: l) = x ++ String.concat "" l.
Proof.
  destruct l; cbn [String.concat]; [now rewrite append_empty_r | reflexivity].
Qed.

Lemma mc_callback_loop_total W :
  (0 < W)%Z ->
  forall fuel data width,
    (len data < fuel)%nat ->
    exists ls loop,
      mc_callback_loop fuel W width data = Some loop
      /\ (forall s, loop s = (s, flat_map line_events ls, Val tt))
      /\ String.concat "" (map snd ls) = data
      /\ Forall (fun l => (1 <= Z.of_nat (len (snd l)) <= W)%Z) ls
      /\ pads_ok W width ls.
Proof.
  intros HW. induction fuel as [|f IH]; intros data width Hf; [lia |].
  cbn [mc_callback_loop].
  destruct (Nat.ltb 0 (len data)) eqn:El.
  - apply Nat.ltb_lt in El.
    assert (Hb : (1 <= slice_bound (len data) W <= len data)%nat
                 /\ (Z.of_nat (slice_bound (len data) W) <= W)%Z).
    { unfold slice_bound. destruct (W <? 0)%Z eqn:E; [apply Z.ltb_lt in E; lia |]. lia. }
    destruct (IH (slice_from data W) (next_width W)) as (rest & loop & Hr & Hrun & Hc & Hl & Hp).
    { unfold slice_from. rewrite len_drop. lia. }
    rewrite Hr. exists ((W - width, slice_to data W)%Z :: rest). eexists.
    split; [reflexivity |]. split; [| split; [| split]].
    + intros s. unfold bind, send_to_client, emit. rewrite Hrun. reflexivity.
    + cbn [map snd]. rewrite concat_empty_cons, Hc. apply slice_split.
    + constructor; [| exact Hl]. cbn [snd]. unfold slice_to. rewrite len_take. lia.
    + cbn. split; [reflexivity |].
      destruct rest as [|l r]; [constructor |].
      destruct Hp as [Hp1 Hp2]. constructor; [| exact Hp2].
      rewrite Hp1. reflexivity.
  - apply Nat.ltb_ge in El. exists []. eexists. split; [reflexivity |].
    repeat split; try constructor.
    destruct data; [reflexivity | cbn in El; lia].
Qed.

(** X17: on a terminal of positive width [W], the loop of [mc_callback]
    ends (as soon as the fuel exceeds the length of the line) and the hook
    sends the line cut into chunks of 1 to [W] characters that concatenate
    to the line, the first one flush left and each later one after 27
    blanks (none on a terminal narrower than 27); the session
    is left as it was up to the completion index, and the trace is the log
    entry, the lines, then the redraw. *)
Theorem mc_callback_wraps W v data fuel :
  (0 < W)%Z -> (len data < fuel)%nat ->
  exists ls prog,
    mc_callback fuel (Some W) v data = Some prog
    /\ String.concat "" (map snd ls) = data
    /\ Forall (fun l => (1 <= Z.of_nat (len (snd l)) <= W)%Z) ls
    /\ pads_ok W W ls
    /\ forall s,
         same_but_suffix s (state_after prog s)
         /\ events_of prog s
            = (Log ("[*] Sending to client: " ++ data)%string
               :: flat_map line_events ls ++ events_of (redraw_buffer v) s)%list.
Proof.
  intros HW Hf.
  destruct (@mc_callback_loop_total W HW fuel data W Hf)
    as (ls & loop & Hl & Hrun & Hc & Hb & Hp).
  exists ls. unfold mc_callback. rewrite Hl. eexists. split; [reflexivity |].
  split; [exact Hc | split; [exact Hb | split; [exact Hp |]]].
  intros s. unfold state_after, events_of, bind, emit. rewrite Hrun.
  pose proof (wpt_elim (redraw_buffer v) _ s (redraw_buffer_spec v s)) as Hfr.
  unfold state_after in Hfr. destruct Hfr as [Hfr _].
  destruct (redraw_buffer v s) as [[s1 ev1] r1]. cbn [fst snd] in *.
  split; [exact Hfr | reflexivity].
Qed.

Lemma mc_callback_wraps_witness :
  (0 < 80)%Z /\ (len "hello" < 6)%nat
  /\ exists (ls : list (Z * str)) prog,
       mc_callback 6 (Some 80%Z) quiet "hello" = Some prog
       /\ String.concat "" (map snd ls) = "hello".
Proof.
  assert (H1 : (0 < 80)%Z) by lia.
  assert (H2 : (len "hello" < 6)%nat) by (simpl; lia).
  split; [exact H1 | split; [exact H2 |]].
  destruct (@mc_callback_wraps 80%Z quiet "hello" 6 H1 H2) as (ls & prog & Hm & Hc & _).
  exists ls, prog. split; [exact Hm | exact Hc].
Defined.

Lemma slice_from_nonempty W data :
  (W <= 0)%Z -> data <> EmptyString -> slice_from data W <> EmptyString.
Proof.
  intros HW Hd E.
  assert (Hl : len (slice_from data W) = 0%nat) by now rewrite E.
  unfold slice_from in Hl. rewrite len_drop in Hl.
  assert (0 < len data)%nat by (destruct data; [congruence | cbn; lia]).
  unfold slice_bound in Hl.
  destruct (W <? 0)%Z eqn:E0; [apply Z.ltb_lt in E0 | apply Z.ltb_ge in E0]; lia.
Qed.

(** X18: on a terminal whose width is zero or less, a non-empty line is
    never used up: the loop of [mc_callback] does not end, whatever the
    number of iterations allowed. *)
Theorem mc_callback_diverges W v data fuel :
  (W <= 0)%Z -> data <> EmptyString ->
  mc_callback fuel (Some W) v data = None.
Proof.
  intros HW Hd. unfold mc_callback.
  assert (H : forall width, mc_callback_loop fuel W width data = None).
  { revert data Hd. induction fuel as [|f IH]; intros data Hd width; [reflexivity |].
    cbn [mc_callback_loop].
    destruct (Nat.ltb 0 (len data)) eqn:El.
    - rewrite IH; [reflexivity | now apply slice_from_nonempty].
    - apply Nat.ltb_ge in El. destruct data; [congruence | cbn in El; lia]. }
  now rewrite H.
Qed.

Lemma mc_callback_diverges_witness :
  (0 <= 0)%Z /\ "x" <> EmptyString /\ mc_callback 1000 (Some 0%Z) quiet "x" = None.
Proof.
  assert (H1 : (0 <= 0)%Z) by lia.
  assert (H2 : "x" <> EmptyString) by discriminate.
  split; [exact H1 | split; [exact H2 |]].
  exact (@mc_callback_diverges 0%Z quiet "x" 1000 H1 H2).
Defined.

(** ** Reading a key *)

Lemma last_char_snoc (data : str) (b : ascii) :
  last_char (data ++ String b EmptyString) = Some b.
Proof.
  induction data as [|c r IH]; [reflexivity |].
  cbn [append last_char]. rewrite IH.
  destruct (r ++ String b EmptyString) eqn:E; [| reflexivity].
  destruct r; discriminate E.
Qed.

Lemma read_escape_shape : forall recvs data k rest,
  (exists c, last_char data = Some c /\ has_char c terminators = false) ->
  read_escape data recvs = Some (k, rest) ->
  exists body t used,
    k = data ++ body ++ String t EmptyString
    /\ has_char t terminators = true
    /\ Forall (fun c => has_char c terminators = false) (chars body)
    /\ recvs = (used ++ rest)%list
    /\ String.concat "" (map received used) = body ++ String t EmptyString.
Proof.
  induction recvs as [|r recvs IH]; intros data k rest Hlast; cbn [read_escape];
    [discriminate |].
  destruct r as [b|]; cbn [received].
  - rewrite last_char_snoc.
    destruct (has_char b terminators) eqn:Et.
    + intros [= <- <-]. exists EmptyString, b, [Some b].
      repeat split; auto.
    + intros H.
      destruct (IH _ _ _ (ex_intro _ b (conj (last_char_snoc data b) Et)) H)
        as (body & t & used & -> & Ht & Hb & -> & Hu).
      exists (String b body), t, (Some b :: used). repeat split; auto.
      * now rewrite append_assoc.
      * cbn. constructor; assumption.
      * cbn [map received]. rewrite concat_empty_cons, Hu. reflexivity.
  - rewrite append_empty_r.
    destruct Hlast as (c & Hc & Hnt). rewrite Hc, Hnt.
    intros H.
    destruct (IH _ _ _ (ex_intro _ c (conj Hc Hnt)) H)
      as (body & t & used & -> & Ht & Hb & -> & Hu).
    exists body, t, (None :: used). repeat split; auto.
    cbn [map received]. rewrite concat_empty_cons. exact Hu.
Qed.

(** X19: what the receive loops of [input_handler] hand to the dispatch
    is the empty key (a [recv] that returned nothing, on a closed channel),
    or one byte below 128 other than the escape byte, or an escape sequence
    that stops at its first terminator; the bytes received before it were
    all skipped as undecodable, the key is made of the bytes received for
    it, and what was received after it is left for the next key. *)
Theorem read_key_shape recvs k rest :
  read_key recvs = Some (k, rest) ->
  exists skipped used,
    recvs = (skipped ++ used ++ rest)%list
    /\ Forall (fun r => exists b, r = Some b /\ (128 <= nat_of_ascii b)%nat) skipped
    /\ String.concat "" (map received used) = k
    /\ ((k = empty /\ used = [None])
        \/ (exists b, k = String b EmptyString /\ used = [Some b]
                      /\ (nat_of_ascii b < 128)%nat /\ b <> ascii_of_nat 27)
        \/ exists body t,
             k = ESC ++ body ++ String t EmptyString
             /\ has_char t terminators = true
             /\ Forall (fun c => has_char c terminators = false) (chars body)).
Proof.
  induction recvs as [|r recvs IH]; cbn [read_key]; [discriminate |].
  destruct r as [b|].
  - destruct (Nat.leb 128 (nat_of_ascii b)) eqn:Eh.
    + intros H. destruct (IH H) as (sk & used & -> & Hsk & Hu & Hshape).
      apply Nat.leb_le in Eh. exists (Some b :: sk), used.
      repeat split; auto. constructor; [eauto | exact Hsk].
    + apply Nat.leb_gt in Eh. destruct (Ascii.eqb b (ascii_of_nat 27)) eqn:Ee.
      * apply Ascii.eqb_eq in Ee. subst b. intros H.
        destruct (@read_escape_shape recvs ESC k rest) as
          (body & t & used & -> & Ht & Hb & -> & Hu);
          [exists (ascii_of_nat 27); split; reflexivity | exact H |].
        exists [], (Some (ascii_of_nat 27) :: used).
        split; [reflexivity | split; [constructor | split]].
        -- cbn [map received]. rewrite concat_empty_cons, Hu. reflexivity.
        -- right. right. exists body, t. auto.
      * apply Ascii.eqb_neq in Ee. intros [= <- <-].
        exists [], [Some b]. split; [reflexivity | split; [constructor | split]];
          [reflexivity |].
        right. left. exists b. auto.
  - intros [= <- <-]. exists [], [None].
    split; [reflexivity | split; [constructor | split]]; [reflexivity |].
    left. auto.
Qed.

Lemma read_key_shape_witness :
  let recvs := [Some (ascii_of_nat 200); Some (ascii_of_nat 27); Some "["%char;
                None; Some "3"%char; Some "~"%char; Some "x"%char] in
  read_key recvs = Some (key_delete, [Some "x"%char])
  /\ exists skipped used,
       recvs = (skipped ++ used ++ [Some "x"%char])%list
       /\ String.concat "" (map received used) = key_delete.
Proof.
  cbv zeta.
  assert (H : read_key [Some (ascii_of_nat 200); Some (ascii_of_nat 27); Some "["%char;
                        None; Some "3"%char; Some "~"%char; Some "x"%char]
              = Some (key_delete, [Some "x"%char])) by reflexivity.
  split; [exact H |].
  destruct (read_key_shape _ H) as (sk & used & H1 & _ & H2 & _).
  exists sk, used. split; [exact H1 | exact H2].
Defined.

End ServerFacts.

(** * Properties of the methods that read the roster *)

Module LiveFacts.
Import Py Server ServerFacts Live.
Local Open Scope string_scope.

(** ** The calculus of [wl] *)

Lemma wl_bind A B (c : L B) (k : B -> L A) P n s :
  wl (bind c k) P n s =
  wl c (fun n1 s1 ev1 r1 =>
          match r1 with
          | Val b => wl (k b) (fun n2 s2 ev2 r => P n2 s2 (ev1 ++ ev2)%list r) n1 s1
          | Exit => P n1 s1 ev1 Exit
          | Raise e => P n1 s1 ev1 (Raise e)
          end) n s.
Proof.
  unfold wl, bind. destruct (c n s) as [n1 [[s1 ev1] [b | | e]]]; [| reflexivity ..].
  destruct (k b n1 s1) as [n2 [[s2 ev2] r]]. reflexivity.
Qed.

Lemma wl_ret A (a : A) P n s : wl (ret a) P n s = P n s [] (Val a).
Proof. reflexivity. Qed.

Lemma wl_lift A (c : M A) P n s : wl (lift c) P n s = wpt c (P n) s.
Proof. unfold wl, lift, wpt. destruct (c s) as [[s1 ev] r]. reflexivity. Qed.

Lemma wl_players ws P n s :
  wl (ws_players ws) P n s =
  P (S n) s [] (match roster ws n with
                | Roster names => Val names
                | Fails e => Raise e
                end).
Proof. reflexivity. Qed.

Lemma wl_elim A (c : L A) P n s :
  wl c P n s -> P (reads c n s) (final c n s) (trace c n s) (outcome c n s).
Proof.
  unfold wl, reads, final, trace, outcome.
  destruct (c n s) as [n1 [[s1 ev] r]]. auto.
Qed.

Lemma wl_mono A (c : L A) (P P' : nat -> SSHServer -> list event -> res A -> Prop) n s :
  wl c P' n s -> (forall n' s' ev r, P' n' s' ev r -> P n' s' ev r) -> wl c P n s.
Proof. unfold wl. destruct (c n s) as [n1 [[s1 ev] r]]. auto. Qed.

Ltac wl_step :=
  first [ rewrite wl_ret | rewrite wl_lift | rewrite wl_players | rewrite wl_bind
        | rewrite wpt_get | rewrite wpt_modify | rewrite wpt_emit
        | rewrite wpt_ret | rewrite wpt_raise | rewrite wpt_exit
        | rewrite wpt_bind ].
Ltac wl_run := repeat (wl_step; cbv beta iota).

(** ** One evaluation of [filtered_history] *)

Lemma player_suggestions_eq ws n s :
  player_suggestions ws n s =
  if reads_roster s then
    (S n, (s, [], match roster ws n with
                  | Roster names => Val (Server.player_suggestions (view ws names) s)
                  | Fails e => Raise e
                  end))
  else (n, (s, [], Val [])).
Proof.
  unfold player_suggestions, reads_roster, Server.player_suggestions.
  unfold bind, lift, get, ws_players, ret.
  destruct (Nat.eqb (len (filter s)) 0
            || Nat.eqb (len (hd empty (split " " (filter s)))) 0); cbn [negb];
    [reflexivity |].
  change (is_command_complete (view ws ?x) s) with (is_command_complete (commands ws) s).
  destruct (Nat.eqb (List.length (split " " (filter s))) 1
            && is_command_complete (commands ws) s) eqn:E.
  - destruct (roster ws n) as [names | e]; reflexivity.
  - destruct (roster ws n) as [names | e]; reflexivity.
Qed.

Lemma player_suggestions_unread v s :
  reads_roster s = false -> Server.player_suggestions v s = [].
Proof.
  unfold reads_roster, Server.player_suggestions. intros H.
  apply negb_false_iff in H. now rewrite H.
Qed.

Lemma filtered_history_unread ws names s :
  reads_roster s = false ->
  Server.filtered_history (view ws names) s = Server.filtered_history (view ws []) s.
Proof.
  intros H. unfold Server.filtered_history, candidate_pool.
  now rewrite !player_suggestions_unread by exact H.
Qed.

Lemma filtered_history_eq ws n s :
  filtered_history ws n s =
  if reads_roster s then
    (S n, (s, [], match roster ws n with
                  | Roster names => Val (Server.filtered_history (view ws names) s)
                  | Fails e => Raise e
                  end))
  else (n, (s, [], Val (Server.filtered_history (view ws []) s))).
Proof.
  unfold filtered_history, bind at 1. rewrite player_suggestions_eq.
  destruct (reads_roster s) eqn:E.
  - destruct (roster ws n) as [names | e]; reflexivity.
  - unfold bind, lift, get, ret. cbn [app].
    unfold Server.filtered_history, candidate_pool.
    now rewrite player_suggestions_unread by exact E.
Qed.

Lemma wl_filtered_history ws P n s :
  wl (filtered_history ws) P n s =
  if reads_roster s then
    P (S n) s [] (match roster ws n with
                  | Roster names => Val (Server.filtered_history (view ws names) s)
                  | Fails e => Raise e
                  end)
  else P n s [] (Val (Server.filtered_history (view ws []) s)).
Proof.
  unfold wl. rewrite filtered_history_eq. now destruct (reads_roster s).
Qed.

(** With a steady roster, an evaluation gives the list the session of
    [Server] computes from that roster. *)
Lemma wl_filtered_history_steady ws names
      (P : nat -> SSHServer -> list event -> res (list str) -> Prop) n s :
  steady ws n names ->
  (forall n', (n <= n')%nat -> steady ws n' names ->
              P n' s [] (Val (Server.filtered_history (view ws names) s))) ->
  wl (filtered_history ws) P n s.
Proof.
  intros Hst HP. rewrite wl_filtered_history.
  destruct (reads_roster s) eqn:E.
  - rewrite (Hst n) by lia. apply HP; [lia |].
    intros k Hk. apply Hst. lia.
  - rewrite <- (@filtered_history_unread ws names s E). apply HP; [lia | exact Hst].
Qed.

(** Whatever the roster answers, an evaluation leaves the session alone,
    sends nothing, and returns a list or raises what the read raised. *)
Lemma wl_filtered_history_any ws
      (P : nat -> SSHServer -> list event -> res (list str) -> Prop) n s :
  (forall n' l, (n <= n')%nat -> P n' s [] (Val l)) ->
  (forall e, fails_at ws n e -> P (S n) s [] (Raise e)) ->
  wl (filtered_history ws) P n s.
Proof.
  intros HV HR. rewrite wl_filtered_history.
  destruct (reads_roster s).
  - destruct (roster ws n) as [names | e] eqn:E; [apply HV; lia | now apply HR].
  - apply HV. lia.
Qed.

Lemma filter_all (A : Type) (f : A -> bool) (l : list A) :
  (forall x, f x = true) -> List.filter f l = l.
Proof.
  intros H. induction l as [|x r IH]; [reflexivity |].
  cbn [List.filter]. now rewrite H, IH.
Qed.

Lemma startswith_empty (c : str) : startswith c empty = true.
Proof. unfold startswith, empty. now destruct c. Qed.

Lemma reads_roster_empty s : filter s = empty -> reads_roster s = false.
Proof. unfold reads_roster. intros ->. reflexivity. Qed.

(** C7: one evaluation of [filtered_history] makes at most one read of
    the roster, inside [player_suggestions].  When that gives the list
    [suggestions], [filtered_history] returns exactly the bare filter
    followed by the entries of (suggestions, history, known commands) that
    start with the filter, in their order, each entry equal to the one
    before it in that sequence left out; so no two neighbouring candidates
    are equal and every candidate after entry zero starts with the filter,
    for the empty filter and for any other.  When the read raises,
    [filtered_history] raises the same exception.  Either way the session
    is left as it was and nothing is sent.  With the empty filter no read
    is made and the list is the empty string followed by the history and
    the known commands, adjacent repeats left out. *)
Theorem filtered_history_candidates (ws : relay) (n : nat) (s : SSHServer) :
  match outcome (player_suggestions ws) n s with
  | Val suggestions =>
      let pool := (suggestions ++ history s ++ known ws)%list in
      let filtered := List.filter (fun cmd => startswith cmd (filter s)) pool in
      let rest := squeeze None filtered in
      outcome (filtered_history ws) n s = Val (filter s :: rest)
      /\ subseq rest filtered
      /\ adjacent_distinct rest
      /\ Forall (fun c => In c pool /\ exists t, c = filter s ++ t) rest
  | Raise e =>
      fails_at ws n e /\ outcome (filtered_history ws) n s = Raise e
  | Exit => False
  end
  /\ final (filtered_history ws) n s = s
  /\ trace (filtered_history ws) n s = []
  /\ (filter s = empty ->
      outcome (filtered_history ws) n s
      = Val (empty :: squeeze None (history s ++ known ws))).
Proof.
  unfold outcome, final, trace.
  rewrite player_suggestions_eq, filtered_history_eq.
  assert (Hshape : forall v,
             let pool := (Server.player_suggestions v s ++ history s ++ known_commands v)%list in
             let filtered := List.filter (fun cmd => startswith cmd (filter s)) pool in
             Server.filtered_history v s = filter s :: squeeze None filtered
             /\ subseq (squeeze None filtered) filtered
             /\ adjacent_distinct (squeeze None filtered)
             /\ Forall (fun c => In c pool /\ exists t, c = filter s ++ t)
                       (squeeze None filtered)).
  { intros v pool filtered. unfold Server.filtered_history, candidate_pool.
    fold pool. fold filtered. rewrite collapse_adjacent_squeeze.
    split; [reflexivity | split; [apply squeeze_subseq |]].
    split; [exact (squeeze_adjacent_distinct filtered None) |].
    apply (subseq_Forall (squeeze_subseq filtered None)).
    apply Forall_forall. intros c Hc.
    apply filter_In in Hc. destruct Hc as [Hin Hsw].
    split; [exact Hin | now apply startswith_spec]. }
  split; [| split; [| split]].
  - destruct (reads_roster s) eqn:E; cbn [fst snd].
    + destruct (roster ws n) as [names | e] eqn:Er; cbn [fst snd].
      * destruct (Hshape (view ws names)) as (H1 & H2 & H3 & H4).
        cbv zeta. rewrite H1. auto.
      * split; [exact Er | reflexivity].
    + destruct (Hshape (view ws [])) as (H1 & H2 & H3 & H4).
      rewrite player_suggestions_unread in * by exact E.
      cbv zeta. rewrite H1. auto.
  - destruct (reads_roster s); reflexivity.
  - destruct (reads_roster s); reflexivity.
  - intros Hf. rewrite (@reads_roster_empty s Hf). cbn [fst snd].
    destruct (Hshape (view ws [])) as (H1 & _).
    rewrite H1, player_suggestions_unread, Hf by exact (@reads_roster_empty s Hf).
    cbn [app known_commands view]. rewrite filter_all by apply startswith_empty.
    reflexivity.
Qed.

(** ** The redraw, whatever the roster answers *)

Lemma steady_later ws n n' names :
  steady ws n names -> (n <= n')%nat -> steady ws n' names.
Proof. intros H Hn k Hk. apply H. lia. Qed.

Lemma suffix_selection_any ws n0 n s :
  (n0 <= n)%nat ->
  wl (suffix_selection ws)
     (fun n' s' ev r =>
        same_but_suffix s s' /\ ev = []
        /\ (selected_suffix s' = selected_suffix s \/ selected_suffix s' = 0%Z)
        /\ (r = Raise IndexError
            \/ (exists x, r = Val x)
            \/ exists k e, (n0 <= k)%nat /\ fails_at ws k e /\ r = Raise e))
     n s.
Proof.
  intros Hn. unfold suffix_selection. rewrite wl_bind.
  apply wl_filtered_history_any; cbv beta iota.
  2: { intros e He. repeat split; auto. right. right. exists n, e. auto. }
  intros n1 fh Hn1.
  destruct (Nat.eqb _ 0); wl_run.
  { repeat split; auto. right. left. eauto. }
  apply wl_filtered_history_any; cbv beta iota.
  2: { intros e He. repeat split; auto. right. right. exists n1, e.
       split; [lia | auto]. }
  intros n2 fh1 Hn2. wl_run. unfold when.
  destruct (_ <=? _)%Z; wl_run.
  - apply wl_filtered_history_any; cbv beta iota.
    2: { intros e He. repeat split; auto. right. right. exists n2, e.
         split; [lia | auto]. }
    intros n3 fh2 Hn3. wl_run. unfold subscript.
    destruct (index _ _) as [x|]; wl_run; repeat split; auto.
    right. left. eauto.
  - apply wl_filtered_history_any; cbv beta iota.
    2: { intros e He. repeat split; auto. right. right. exists n2, e.
         split; [lia | auto]. }
    intros n3 fh2 Hn3. wl_run. unfold subscript.
    destruct (index _ _) as [x|]; wl_run; repeat split; auto.
    right. left. eauto.
Qed.

Lemma suffix_any ws n s :
  wl (suffix ws)
     (fun n' s' ev r =>
        same_but_suffix s s' /\ ev = []
        /\ (selected_suffix s' = selected_suffix s \/ selected_suffix s' = 0%Z)
        /\ (r = Raise IndexError
            \/ (exists x, r = Val x)
            \/ exists k e, (n <= k)%nat /\ fails_at ws k e /\ r = Raise e))
     n s.
Proof.
  unfold suffix. wl_run.
  destruct (Nat.eqb _ 0); wl_run.
  { repeat split; auto. right. left. eauto. }
  eapply wl_mono; [apply (@suffix_selection_any ws n n s); lia |].
  intros n1 s1 ev1 r1 (Hsame & -> & Hsel & Hr). cbv beta.
  destruct r1 as [x | | e].
  - wl_run. repeat split; try apply Hsame; auto. right. left. eauto.
  - destruct Hr as [Hr | [(x & Hr) | (k & e & _ & _ & Hr)]]; discriminate Hr.
  - repeat split; try apply Hsame; auto.
Qed.

Lemma redraw_buffer_any ws n s :
  wl (redraw_buffer ws)
     (fun n' s' ev r =>
        same_but_suffix s s'
        /\ (selected_suffix s' = selected_suffix s \/ selected_suffix s' = 0%Z)
        /\ upstream ev = []
        /\ (r = Val tt \/ r = Raise IndexError
            \/ exists k e, (n <= k)%nat /\ fails_at ws k e /\ r = Raise e))
     n s.
Proof.
  unfold redraw_buffer, send_to_client. wl_run.
  eapply wl_mono; [apply suffix_any |].
  intros n1 s1 ev1 r1 (Hsame & -> & Hsel & Hr). cbv beta.
  destruct r1 as [x | | e].
  - wl_run. repeat split; try apply Hsame; auto.
  - destruct Hr as [Hr | [(x & Hr) | (k & e & _ & _ & Hr)]]; discriminate Hr.
  - repeat split; try apply Hsame; auto.
    destruct Hr as [Hr | [(x & Hr) | (k & e' & Hk & Hf & Hr)]].
    + injection Hr as ->. auto.
    + discriminate Hr.
    + injection Hr as ->. right. right. exists k, e'. auto.
Qed.

(** X1: whatever the relay answers, [redraw_buffer] leaves the buffer,
    the history, the cursor, the history index, the filter and the height as
    they were; the index into the completions is kept or reset to 0; nothing
    goes upstream; and it returns, or ends with [IndexError], or ends with
    the exception that one of its reads of the roster raised. *)
Theorem redraw_buffer_frame ws n s :
  let s' := final (redraw_buffer ws) n s in
  same_but_suffix s s'
  /\ (selected_suffix s' = selected_suffix s \/ selected_suffix s' = 0%Z)
  /\ upstream (trace (redraw_buffer ws) n s) = []
  /\ (outcome (redraw_buffer ws) n s = Val tt
      \/ outcome (redraw_buffer ws) n s = Raise IndexError
      \/ exists k e, (n <= k)%nat /\ fails_at ws k e
                     /\ outcome (redraw_buffer ws) n s = Raise e).
Proof.
  cbv zeta.
  exact (wl_elim (redraw_buffer ws) _ n s (redraw_buffer_any ws n s)).
Qed.

(** A read that fails ends whatever evaluates it: in a session whose
    filter has a non-empty first word, the exception raised by the next read
    of the roster comes out of [filtered_history], of both selections and of
    the redraw. *)
Lemma failed_read_propagates ws n s e :
  reads_roster s = true ->
  fails_at ws n e ->
  outcome (filtered_history ws) n s = Raise e
  /\ outcome (selection ws) n s = Raise e
  /\ outcome (suffix_selection ws) n s = Raise e
  /\ outcome (redraw_buffer ws) n s = Raise e.
Proof.
  intros Hr Hf. unfold fails_at in Hf.
  assert (Hlen : Nat.eqb (len (filter s)) 0 = false).
  { unfold reads_roster in Hr. apply negb_true_iff, orb_false_iff in Hr. apply Hr. }
  repeat split.
  - apply (@wl_elim _ (filtered_history ws) (fun _ _ _ r => r = Raise e)).
    rewrite wl_filtered_history, Hr, Hf. reflexivity.
  - apply (@wl_elim _ (selection ws) (fun _ _ _ r => r = Raise e)).
    unfold selection. rewrite wl_bind, wl_filtered_history, Hr, Hf. reflexivity.
  - apply (@wl_elim _ (suffix_selection ws) (fun _ _ _ r => r = Raise e)).
    unfold suffix_selection. rewrite wl_bind, wl_filtered_history, Hr, Hf. reflexivity.
  - apply (@wl_elim _ (redraw_buffer ws) (fun _ _ _ r => r = Raise e)).
    unfold redraw_buffer, send_to_client. wl_run.
    unfold suffix. wl_run. rewrite Hlen.
    unfold suffix_selection. rewrite !wl_bind, wl_filtered_history, Hr, Hf. reflexivity.
Qed.

(** ** The selection indices, with a steady roster *)

(** X5: when every read of the roster returns the same list and the
    history index is not negative, [selection] never subscripts out of
    range: it returns one of the candidates. *)
Theorem selection_in_range ws names n s :
  steady ws n names ->
  (0 <= selected s)%Z ->
  exists x, outcome (selection ws) n s = Val x
            /\ In x (Server.filtered_history (view ws names) s).
Proof.
  intros Hst Hs.
  set (fh := Server.filtered_history (view ws names) s).
  apply (@wl_elim _ (selection ws)
           (fun _ _ _ r => exists x, r = Val x /\ In x fh)).
  unfold selection. rewrite wl_bind.
  eapply wl_filtered_history_steady; [exact Hst |]. intros n1 Hn1 Hst1. cbv beta iota. fold fh.
  destruct (Nat.eqb (List.length fh) 0) eqn:E0; [discriminate E0 |].
  rewrite wl_bind.
  eapply wl_filtered_history_steady; [exact Hst1 |]. intros n2 Hn2 Hst2. cbv beta iota. fold fh.
  wl_run. unfold when.
  destruct (_ <=? _)%Z eqn:El; wl_run.
  - eapply wl_filtered_history_steady; [exact Hst2 |]. intros n3 Hn3 Hst3. cbv beta iota.
    change (Server.filtered_history (view ws names) (set_selected 0 s)) with fh.
    wl_run. unfold subscript. cbn [selected set_selected].
    destruct (@index_in_range _ fh 0) as [x [Hx Hin]]; [simpl; lia |].
    rewrite Hx. wl_run. eauto.
  - apply Z.leb_gt in El.
    eapply wl_filtered_history_steady; [exact Hst2 |]. intros n3 Hn3 Hst3. cbv beta iota.
    fold fh. wl_run. unfold subscript.
    destruct (@index_in_range _ fh (selected s)) as [x [Hx Hin]]; [lia |].
    rewrite Hx. wl_run. eauto.
Qed.

Lemma selection_in_range_witness :
  steady nobody 0 [] /\ (0 <= selected after_up)%Z
  /\ exists x, outcome (selection nobody) 0 after_up = Val x
               /\ In x (Server.filtered_history (view nobody []) after_up).
Proof.
  assert (H0 : steady nobody 0 []) by (intros k _; reflexivity).
  assert (H : (0 <= selected after_up)%Z) by (simpl; lia).
  split; [exact H0 | split; [exact H |]].
  exact (@selection_in_range nobody [] 0 after_up H0 H).
Defined.

Lemma suffix_selection_steady ws names n s
      (P : nat -> SSHServer -> list event -> res str -> Prop) :
  steady ws n names ->
  (0 <= selected_suffix s)%Z ->
  let fh := Server.filtered_history (view ws names) s in
  (forall n' s' r,
      (n <= n')%nat -> steady ws n' names -> same_but_suffix s s' ->
      (r = Raise IndexError
       <-> (2 <= Z.of_nat (List.length fh)
            /\ selected_suffix s = Z.of_nat (List.length fh) - 1)%Z) ->
      (r = Raise IndexError
       \/ exists x, r = Val x /\ (x = empty \/ In x (from1 fh))) ->
      P n' s' [] r) ->
  wl (suffix_selection ws) P n s.
Proof.
  intros Hst Hs fh HP.
  assert (Hlen : List.length fh = S (List.length (from1 fh))) by reflexivity.
  unfold suffix_selection. rewrite wl_bind.
  eapply wl_filtered_history_steady; [exact Hst |]. intros n1 Hn1 Hst1. cbv beta iota. fold fh.
  destruct (Nat.eqb (List.length (from1 fh)) 0) eqn:E0; wl_run.
  { apply Nat.eqb_eq in E0. apply HP; auto.
    - apply same_but_suffix_refl.
    - split; [discriminate | lia].
    - right. eauto. }
  apply Nat.eqb_neq in E0.
  eapply wl_filtered_history_steady; [exact Hst1 |]. intros n2 Hn2 Hst2. cbv beta iota. fold fh.
  wl_run. unfold when.
  destruct (_ <=? _)%Z eqn:El; wl_run.
  - apply Z.leb_le in El.
    eapply wl_filtered_history_steady; [exact Hst2 |]. intros n3 Hn3 Hst3. cbv beta iota.
    change (Server.filtered_history (view ws names) (set_selected_suffix 0 s)) with fh.
    wl_run. unfold subscript. cbn [selected_suffix set_selected_suffix].
    destruct (@index_in_range _ (from1 fh) 0) as [x [Hx Hin]]; [lia |].
    rewrite Hx. wl_run. apply HP; auto.
    + lia.
    + repeat split.
    + split; [discriminate | lia].
    + right. eauto.
  - apply Z.leb_gt in El.
    eapply wl_filtered_history_steady; [exact Hst2 |]. intros n3 Hn3 Hst3. cbv beta iota.
    fold fh. wl_run. unfold subscript.
    destruct (Z.eq_dec (selected_suffix s) (Z.of_nat (List.length fh) - 1)) as [Eq | Ne].
    + rewrite index_past_end by lia. wl_run. apply HP; auto.
      * lia.
      * apply same_but_suffix_refl.
      * split; [lia | reflexivity].
    + destruct (@index_in_range _ (from1 fh) (selected_suffix s)) as [x [Hx Hin]];
        [lia |].
      rewrite Hx. wl_run. apply HP; auto.
      * lia.
      * apply same_but_suffix_refl.
      * split; [discriminate | lia].
      * right. eauto.
Qed.

(** X6: when every read of the roster returns the same list and the
    completion index is not negative, [suffix_selection] raises
    [IndexError] exactly when there are at least two candidates and the
    index is that of the last one; otherwise it returns the empty string or
    one of the candidates after the first. *)
Theorem suffix_selection_raises_iff ws names n s :
  steady ws n names ->
  (0 <= selected_suffix s)%Z ->
  (outcome (suffix_selection ws) n s = Raise IndexError
   <-> (2 <= candidates (view ws names) s
        /\ selected_suffix s = candidates (view ws names) s - 1)%Z)
  /\ (outcome (suffix_selection ws) n s = Raise IndexError
      \/ exists x, outcome (suffix_selection ws) n s = Val x
                   /\ (x = empty
                       \/ In x (from1 (Server.filtered_history (view ws names) s)))).
Proof.
  intros Hst Hs.
  apply (@wl_elim _ (suffix_selection ws)
           (fun _ _ _ r =>
              (r = Raise IndexError
               <-> (2 <= candidates (view ws names) s
                    /\ selected_suffix s = candidates (view ws names) s - 1)%Z)
              /\ (r = Raise IndexError
                  \/ exists x, r = Val x
                       /\ (x = empty
                           \/ In x (from1 (Server.filtered_history (view ws names) s)))))).
  eapply suffix_selection_steady; [exact Hst | exact Hs |]. cbv zeta.
  intros n' s' r _ _ _ H1 H2. split; [exact H1 | exact H2].
Qed.

Lemma suffix_selection_raises_iff_witness :
  steady nobody 0 [] /\ (0 <= selected_suffix after_up)%Z
  /\ (outcome (suffix_selection nobody) 0 after_up = Raise IndexError
      <-> (2 <= candidates (view nobody []) after_up
           /\ selected_suffix after_up = candidates (view nobody []) after_up - 1)%Z).
Proof.
  assert (H0 : steady nobody 0 []) by (intros k _; reflexivity).
  assert (H : (0 <= selected_suffix after_up)%Z) by (simpl; lia).
  split; [exact H0 | split; [exact H |]].
  exact (proj1 (@suffix_selection_raises_iff nobody [] 0 after_up H0 H)).
Defined.

(** X7: when every read of the roster returns the same list, a filter is
    typed and there are at least two candidates, an up-arrow pressed when
    the completion index is at most one short of the last candidate ends the
    iteration of the input loop with [IndexError]: the key moves the index
    onto the last candidate and the redraw that follows subscripts past the
    end. *)
Theorem up_arrow_to_last_candidate_raises ws names n s :
  steady ws n names ->
  filter s <> empty ->
  (2 <= candidates (view ws names) s)%Z ->
  (candidates (view ws names) s - 2 <= selected_suffix s)%Z ->
  outcome (input_handler_step ws key_up) n s = Raise IndexError.
Proof.
  intros Hst Hf Hn Hss.
  apply (@wl_elim _ (input_handler_step ws key_up) (fun _ _ _ r => r = Raise IndexError)).
  unfold input_handler_step.
  change (String.eqb key_up key_return) with false.
  change (String.eqb key_up key_backspace) with false.
  change (String.eqb key_up key_interrupt) with false.
  change (String.eqb key_up key_up) with true.
  cbv iota. rewrite wl_bind. unfold previous_command. wl_run.
  assert (Efil : String.eqb (filter s) empty = false) by now apply String.eqb_neq.
  rewrite Efil.
  rewrite wl_bind.
  eapply wl_filtered_history_steady; [exact Hst |]. intros n1 Hn1 Hst1. cbv beta iota.
  wl_run. fold (candidates (view ws names) s).
  replace (Z.min (candidates (view ws names) s - 1) (selected_suffix s + 1))
    with (candidates (view ws names) s - 1)%Z by lia.
  set (s1 := set_selected_suffix (candidates (view ws names) s - 1) s).
  unfold redraw_buffer, send_to_client. wl_run.
  unfold suffix. wl_run.
  assert (Elen : Nat.eqb (len (filter s1)) 0 = false).
  { apply Nat.eqb_neq. change (filter s1) with (filter s). unfold len.
    destruct (filter s); [exfalso; apply Hf; reflexivity | discriminate]. }
  rewrite Elen.
  rewrite wl_bind.
  assert (Hs1 : (0 <= selected_suffix s1)%Z)
    by (unfold s1; cbn [selected_suffix set_selected_suffix]; lia).
  eapply suffix_selection_steady; [exact Hst1 | exact Hs1 |]. cbv zeta.
  intros n' s' r _ _ _ [_ Hr] _.
  assert (Er : r = Raise IndexError).
  { apply Hr. change (Server.filtered_history (view ws names) s1)
      with (Server.filtered_history (view ws names) s).
    unfold candidates in *. unfold s1. cbn [selected_suffix set_selected_suffix].
    lia. }
  subst r. reflexivity.
Qed.

Lemma up_arrow_to_last_candidate_raises_witness :
  let s := mkSSHServer ["a"] ["abc"; empty] 1 0 0 "a" 24 in
  steady nobody 0 [] /\ filter s <> empty
  /\ (2 <= candidates (view nobody []) s)%Z
  /\ (candidates (view nobody []) s - 2 <= selected_suffix s)%Z
  /\ outcome (input_handler_step nobody key_up) 0 s = Raise IndexError.
Proof.
  cbv zeta.
  assert (H0 : steady nobody 0 []) by (intros k _; reflexivity).
  assert (H1 : filter (mkSSHServer ["a"] ["abc"; empty] 1 0 0 "a" 24) <> empty)
    by discriminate.
  assert (H2 : (2 <= candidates (view nobody [])
                       (mkSSHServer ["a"] ["abc"; empty] 1 0 0 "a" 24))%Z)
    by (vm_compute; discriminate).
  assert (H3 : (candidates (view nobody [])
                  (mkSSHServer ["a"] ["abc"; empty] 1 0 0 "a" 24) - 2
                <= selected_suffix (mkSSHServer ["a"] ["abc"; empty] 1 0 0 "a" 24))%Z)
    by (vm_compute; discriminate).
  split; [exact H0 | split; [exact H1 | split; [exact H2 | split; [exact H3 |]]]].
  exact (up_arrow_to_last_candidate_raises H0 H1 H2 H3).
Defined.

End LiveFacts.

(** * Properties of the console relay *)

Module McFacts.
Import Py Mc.
Local Open Scope string_scope.

(** ** The roster *)

(** C5, as stated, fails: with a roster cached and the refresh failing,
    the call does not return the cached roster. *)
Lemma get_online_players_failure_not_cached :
  _players with_roster = Some [mkPlayer "Steve"]
  /\ snd (get_online_players 100 (HttpError "timed out") with_roster)
     <> Val [mkPlayer "Steve"].
Proof. split; [reflexivity | vm_compute; discriminate]. Qed.

(** C5, amended: when the cache is stale and the query fails with a
    transport error, [get_online_players] logs the error and returns the
    empty list without raising; the cached roster stays in place and the
    refresh time is set to the time of the call. *)
Theorem get_online_players_failure_empty (now : Q) (e : str) (w : MinecraftSocket) :
  Qltb (now - players_last_updated w) 10 = false ->
  get_online_players now (HttpError e) w =
    (set_players_last_updated now w,
     [Log ("Error getting online players: " ++ e)],
     Val [])
  /\ _players (fst (fst (get_online_players now (HttpError e) w))) = _players w.
Proof.
  intros H. unfold get_online_players. rewrite H. split; reflexivity.
Qed.

Lemma get_online_players_failure_empty_witness :
  Qltb (100 - players_last_updated with_roster) 10 = false
  /\ get_online_players 100 (HttpError "timed out") with_roster =
       (set_players_last_updated 100 with_roster,
        [Log "Error getting online players: timed out"],
        Val []).
Proof.
  split; [reflexivity |].
  apply (@get_online_players_failure_empty 100 "timed out" with_roster).
  reflexivity.
Defined.

(** Within the ten seconds that follow a failed first refresh there is
    no [_players] attribute to return. *)
Example get_online_players_after_first_failure :
  let w := fst (fst (get_online_players 100 (HttpError "timed out") init)) in
  snd (get_online_players 101 (HttpError "timed out") w) = Raise AttributeError.
Proof. reflexivity. Qed.

(** ** Ingestion *)

Lemma str_in_In (x : str) (l : list str) : str_in x l = true <-> In x l.
Proof.
  unfold str_in. rewrite existsb_exists. split.
  - intros [y [Hy E]]. apply String.eqb_eq in E. now subst.
  - intros H. exists x. split; [exact H | apply String.eqb_refl].
Qed.

Section Ingestion.
Variable json_loads : str -> option json_message.
Variable strftime : Z -> option str.

Let on_message := on_message json_loads strftime.
Let after := after json_loads strftime.

(** A line that is already stored changes nothing and reaches nobody. *)
Lemma on_message_known (raw : str) (w : MinecraftSocket) :
  In raw (KNOWN_MESSAGES w) ->
  exists r, on_message raw w = (w, [], r) /\ forall f, r <> FansOut f.
Proof.
  intros Hin. apply str_in_In in Hin. unfold on_message, Mc.on_message.
  destruct (json_loads raw) as [j|]; [| eexists; split; [reflexivity | discriminate]].
  destruct (timestampMillis j) as [ts|]; [| eexists; split; [reflexivity | discriminate]].
  destruct (ts <? latest_message w)%Z; [eexists; split; [reflexivity | discriminate] |].
  rewrite Hin. eexists; split; [reflexivity | discriminate].
Qed.

Lemma learn_command_frame text w :
  KNOWN_MESSAGES (fst (learn_command text w)) = KNOWN_MESSAGES w
  /\ latest_message (fst (learn_command text w)) = latest_message w.
Proof.
  unfold learn_command.
  destruct (match_command text) as [c|]; [| split; reflexivity].
  destruct (str_in c (KNOWN_COMMANDS w)); split; reflexivity.
Qed.

(** What [on_message] does to the store and to the high-water mark:
    either nothing, or the line is appended and its timestamp, which is
    not below the old mark, becomes the mark. *)
Lemma on_message_store (raw : str) (w : MinecraftSocket) :
  (after raw w = w /\ forall f, snd (on_message raw w) <> FansOut f)
  \/ (exists j ts,
        json_loads raw = Some j /\ timestampMillis j = Some ts
        /\ (latest_message w <= ts)%Z
        /\ ~ In raw (KNOWN_MESSAGES w)
        /\ KNOWN_MESSAGES (after raw w) = (KNOWN_MESSAGES w ++ [raw])%list
        /\ latest_message (after raw w) = ts).
Proof.
  unfold after, Mc.after, on_message, Mc.on_message.
  destruct (json_loads raw) as [j|] eqn:Ej;
    [| left; split; [reflexivity | discriminate]].
  destruct (timestampMillis j) as [ts|] eqn:Et;
    [| left; split; [reflexivity | discriminate]].
  destruct (ts <? latest_message w)%Z eqn:El;
    [left; split; [reflexivity | discriminate] |].
  destruct (str_in raw (KNOWN_MESSAGES w)) eqn:Ek;
    [left; split; [reflexivity | discriminate] |].
  right. exists j, ts.
  apply Z.ltb_ge in El.
  assert (Hnot : ~ In raw (KNOWN_MESSAGES w)).
  { intros H. apply str_in_In in H. congruence. }
  repeat (split; [solve [auto] |]).
  destruct (message j) as [text|]; [| split; reflexivity].
  set (w1 := set_latest_message ts _).
  destruct (learn_command_frame text w1) as [Hm Hl].
  destruct (learn_command text w1) as [w2 ev2]. simpl in Hm, Hl.
  destruct (format_message strftime j); simpl; rewrite Hm, Hl; split; reflexivity.
Qed.

(** C2: a raw line that is already stored is dropped: the store, and
    with it the whole relay state, is unchanged and no subscriber is
    reached.  Ingesting any line a second time therefore changes
    nothing, and a line that was not stored before is stored at most
    once after two ingestions, exactly once if the first one kept it. *)
Theorem on_message_idempotent (raw : str) (w : MinecraftSocket) :
  (In raw (KNOWN_MESSAGES w) ->
   after raw w = w
   /\ snd (fst (on_message raw w)) = []
   /\ forall f, snd (on_message raw w) <> FansOut f)
  /\ after raw (after raw w) = after raw w
  /\ (~ In raw (KNOWN_MESSAGES w) ->
      (count_occ string_dec (KNOWN_MESSAGES (after raw (after raw w))) raw <= 1)%nat
      /\ (In raw (KNOWN_MESSAGES (after raw w)) ->
          count_occ string_dec (KNOWN_MESSAGES (after raw (after raw w))) raw = 1%nat)).
Proof.
  assert (Hknown : forall w0, In raw (KNOWN_MESSAGES w0) ->
            after raw w0 = w0
            /\ snd (fst (on_message raw w0)) = []
            /\ forall f, snd (on_message raw w0) <> FansOut f).
  { intros w0 Hin. unfold after, Mc.after. fold on_message.
    destruct (@on_message_known raw w0 Hin) as [r [E Hr]].
    rewrite E. repeat split; auto. }
  assert (Htwice : after raw (after raw w) = after raw w).
  { destruct (on_message_store raw w) as [[E _] | (j & ts & _ & _ & _ & _ & Hk & _)].
    - now rewrite !E.
    - apply Hknown. rewrite Hk. apply in_or_app. right. now left. }
  split; [exact (Hknown w) | split; [exact Htwice |]].
  intros Hnot. rewrite Htwice.
  destruct (on_message_store raw w) as [[E _] | (j & ts & _ & _ & _ & _ & Hk & _)].
  - rewrite E. apply (count_occ_not_In string_dec) in Hnot.
    unfold str in *. rewrite Hnot. split; [lia |].
    intros Hin. apply (count_occ_In string_dec) in Hin. lia.
  - rewrite Hk, count_occ_app. apply (count_occ_not_In string_dec) in Hnot.
    unfold str in *. rewrite Hnot. simpl. destruct (string_dec raw raw); [| congruence].
    split; [lia | reflexivity].
Qed.

(** C3: a line whose timestamp is strictly below the high-water mark is
    dropped before anything is stored and before the loop over the
    subscribers; and whenever a line is stored or fanned out, its
    timestamp is the new mark. *)
Theorem on_message_high_water_mark (raw : str) (w : MinecraftSocket) :
  (forall j ts,
      json_loads raw = Some j -> timestampMillis j = Some ts ->
      (ts < latest_message w)%Z ->
      on_message raw w = (w, [], Returns))
  /\ ((KNOWN_MESSAGES (after raw w) <> KNOWN_MESSAGES w
       \/ exists f, snd (on_message raw w) = FansOut f) ->
      exists j ts,
        json_loads raw = Some j /\ timestampMillis j = Some ts
        /\ (latest_message w <= ts)%Z
        /\ KNOWN_MESSAGES (after raw w) = (KNOWN_MESSAGES w ++ [raw])%list
        /\ latest_message (after raw w) = ts).
Proof.
  split.
  - intros j ts Ej Et Hlt. unfold on_message, Mc.on_message. rewrite Ej, Et.
    apply Z.ltb_lt in Hlt. now rewrite Hlt.
  - intros Hacc.
    destruct (on_message_store raw w)
      as [[E Hno] | (j & ts & Ej & Et & Hle & _ & Hk & Hl)].
    + exfalso. destruct Hacc as [Hne | [f Hf]].
      * apply Hne. now rewrite E.
      * exact (Hno f Hf).
    + exists j, ts. auto.
Qed.

End Ingestion.

Lemma on_message_idempotent_witness :
  In ban_line (KNOWN_MESSAGES after_ban_line)
  /\ after loads_ban_line strftime_epoch ban_line after_ban_line = after_ban_line
  /\ ~ In ban_line (KNOWN_MESSAGES init)
  /\ count_occ string_dec (KNOWN_MESSAGES
       (after loads_ban_line strftime_epoch ban_line after_ban_line)) ban_line = 1%nat.
Proof.
  assert (Hin : In ban_line (KNOWN_MESSAGES after_ban_line)) by (left; reflexivity).
  assert (Hnot : ~ In ban_line (KNOWN_MESSAGES init)) by (intros []).
  split; [exact Hin | split; [| split; [exact Hnot |]]].
  - exact (proj1 (proj1 (on_message_idempotent loads_ban_line strftime_epoch
                           ban_line after_ban_line) Hin)).
  - exact (proj2 (proj2 (proj2 (on_message_idempotent loads_ban_line strftime_epoch
                                  ban_line init)) Hnot) Hin).
Defined.

Lemma on_message_high_water_mark_witness :
  (100 < latest_message past_ban_line)%Z
  /\ on_message loads_ban_line strftime_epoch ban_line past_ban_line
     = (past_ban_line, [], Returns)
  /\ latest_message after_ban_line = 100%Z.
Proof.
  assert (Hlt : (100 < latest_message past_ban_line)%Z) by reflexivity.
  split; [exact Hlt | split].
  - exact (proj1 (on_message_high_water_mark loads_ban_line strftime_epoch
                    ban_line past_ban_line)
                 _ 100%Z eq_refl eq_refl Hlt).
  - destruct (proj2 (on_message_high_water_mark loads_ban_line strftime_epoch
                       ban_line init))
      as (j & ts & Ej & Et & _ & _ & Hl).
    + left. discriminate.
    + vm_compute in Ej. injection Ej as <-. simpl in Et. injection Et as <-.
      exact Hl.
Defined.

(** The ban scenario: the line teaches the relay the command [ban] and
    is fanned out; a byte-identical repeat changes nothing. *)
Example ban_line_learns_once :
  KNOWN_COMMANDS after_ban_line = [empty; "ban"]
  /\ snd (on_message loads_ban_line strftime_epoch ban_line init)
     = FansOut "1970-01-01 00:00:00 INFO : /ban: player banned"
  /\ on_message loads_ban_line strftime_epoch ban_line after_ban_line
     = (after_ban_line, [], Returns).
Proof. repeat split; reflexivity. Qed.

(** ** The roster cache *)

(** X20: a roster fetched when the cache was stale is what every call
    within the next ten seconds returns, without a query (whatever the
    endpoint would answer) and without any change to the relay. *)
Theorem get_online_players_fresh now0 now1 body resp w :
  Qltb (now0 - players_last_updated w)%Q 10%Q = false ->
  Qltb (now1 - now0)%Q 10%Q = true ->
  let w1 := fst (fst (get_online_players now0 (HttpOk body) w)) in
  get_online_players now0 (HttpOk body) w = (w1, [], Val body)
  /\ get_online_players now1 resp w1 = (w1, [], Val body).
Proof.
  intros H0 H1. cbv zeta.
  assert (E : get_online_players now0 (HttpOk body) w
              = (set_players body (set_players_last_updated now0 w), [], Val body)).
  { unfold get_online_players. now rewrite H0. }
  rewrite E. cbn [fst]. split; [reflexivity |].
  unfold get_online_players.
  cbn [players_last_updated set_players set_players_last_updated _players].
  now rewrite H1.
Qed.

Lemma get_online_players_fresh_witness :
  Qltb (100 - players_last_updated init)%Q 10%Q = false
  /\ Qltb (105 - 100)%Q 10%Q = true
  /\ get_online_players 105%Q (HttpError "down")
       (fst (fst (get_online_players 100%Q (HttpOk [mkPlayer "Steve"]) init)))
     = (fst (fst (get_online_players 100%Q (HttpOk [mkPlayer "Steve"]) init)), [],
        Val [mkPlayer "Steve"]).
Proof.
  assert (H0 : Qltb (100 - players_last_updated init)%Q 10%Q = false) by reflexivity.
  assert (H1 : Qltb (105 - 100)%Q 10%Q = true) by reflexivity.
  split; [exact H0 | split; [exact H1 |]].
  exact (proj2 (@get_online_players_fresh 100%Q 105%Q [mkPlayer "Steve"]
                  (HttpError "down") init H0 H1)).
Defined.

(** X21: when the first query of a relay fails, [_players] has never
    been assigned although the refresh time has been set: the failing call
    returns the empty list, and every call within the next ten seconds
    raises [AttributeError]. *)
Theorem get_online_players_unset now0 now1 e resp w :
  _players w = None ->
  Qltb (now0 - players_last_updated w)%Q 10%Q = false ->
  Qltb (now1 - now0)%Q 10%Q = true ->
  let w1 := fst (fst (get_online_players now0 (HttpError e) w)) in
  snd (get_online_players now0 (HttpError e) w) = Val []
  /\ get_online_players now1 resp w1 = (w1, [], Raise AttributeError).
Proof.
  intros Hp H0 H1. cbv zeta.
  assert (E : get_online_players now0 (HttpError e) w
              = (set_players_last_updated now0 w,
                 [Log ("Error getting online players: " ++ e)], Val [])).
  { unfold get_online_players. now rewrite H0. }
  rewrite E. cbn [fst snd]. split; [reflexivity |].
  unfold get_online_players.
  cbn [players_last_updated set_players_last_updated _players].
  now rewrite H1, Hp.
Qed.

Lemma get_online_players_unset_witness :
  _players init = None
  /\ Qltb (100 - players_last_updated init)%Q 10%Q = false
  /\ Qltb (101 - 100)%Q 10%Q = true
  /\ snd (get_online_players 101%Q (HttpOk [])
            (fst (fst (get_online_players 100%Q (HttpError "down") init))))
     = Raise AttributeError.
Proof.
  assert (Hp : _players init = None) by reflexivity.
  assert (H0 : Qltb (100 - players_last_updated init)%Q 10%Q = false) by reflexivity.
  assert (H1 : Qltb (101 - 100)%Q 10%Q = true) by reflexivity.
  split; [exact Hp | split; [exact H0 | split; [exact H1 |]]].
  rewrite (proj2 (@get_online_players_unset 100%Q 101%Q "down" (HttpOk []) init Hp H0 H1)).
  reflexivity.
Defined.

(** ** The registry of subscribers *)

Lemma remove_none (x : nat) l : remove Nat.eqb x l = None <-> ~ In x l.
Proof.
  induction l as [|y r IH]; cbn [remove].
  - split; [intros _ [] | reflexivity].
  - destruct (Nat.eqb x y) eqn:E.
    + apply Nat.eqb_eq in E. subst.
      split; [discriminate | intros H; exfalso; apply H; now left].
    + apply Nat.eqb_neq in E. destruct (remove Nat.eqb x r) as [r'|].
      * split; [discriminate |]. intros H. exfalso.
        assert (Hn : ~ In x r) by (intros Hi; apply H; now right).
        apply IH in Hn. discriminate.
      * split; [| reflexivity]. intros _ [Hy | Hr]; [congruence |].
        now apply (proj1 IH).
Qed.

Lemma remove_snoc (x : nat) l : ~ In x l -> remove Nat.eqb x (l ++ [x]) = Some l.
Proof.
  induction l as [|y r IH]; intros H; cbn [remove app].
  - now rewrite Nat.eqb_refl.
  - destruct (Nat.eqb x y) eqn:E.
    + apply Nat.eqb_eq in E. exfalso. apply H. now left.
    + rewrite IH; [reflexivity |]. intros Hi. apply H. now right.
Qed.

(** X22: [unsubscribe] undoes [subscribe] for a session that was not
    registered before, and for a session that is not registered it raises
    ([ValueError] from [list.remove]) instead of doing nothing. *)
Theorem subscribe_unsubscribe c w :
  ~ In c (callbacks w) ->
  unsubscribe c (subscribe c w) = Some w /\ unsubscribe c w = None.
Proof.
  intros H. unfold unsubscribe, subscribe. cbn [callbacks set_callbacks].
  rewrite remove_snoc by exact H.
  rewrite (proj2 (remove_none c (callbacks w)) H).
  split; [destruct w; reflexivity | reflexivity].
Qed.

Lemma subscribe_unsubscribe_witness :
  ~ In 7%nat (callbacks init) /\ unsubscribe 7 (subscribe 7 init) = Some init.
Proof.
  assert (H : ~ In 7%nat (callbacks init)) by (intros []).
  split; [exact H | exact (proj1 (@subscribe_unsubscribe 7%nat init H))].
Defined.

(** ** The pattern of a command echo *)

Lemma before_last_colon_sound s g :
  before_last_colon s = Some g -> exists rest, s = g ++ String ":" rest.
Proof.
  revert g. induction s as [|c r IH]; intros g; cbn [before_last_colon]; [discriminate |].
  destruct (before_last_colon r) as [g'|].
  - intros [= <-]. destruct (IH g' eq_refl) as [rest ->]. now exists rest.
  - destruct (Ascii.eqb c ":") eqn:E; [| discriminate].
    intros [= <-]. apply Ascii.eqb_eq in E. subst. now exists r.
Qed.

Lemma non_space_run_prefix s : exists rest, s = non_space_run s ++ rest.
Proof.
  induction s as [|c r [rest IH]]; [now exists "" |].
  cbn [non_space_run]. destruct (isspace c).
  - now exists (String c r).
  - exists rest. cbn. now rewrite <- IH.
Qed.

Lemma non_space_run_chars s :
  Forall (fun c => isspace c = false) (chars (non_space_run s)).
Proof.
  induction s as [|c r IH]; [constructor |].
  cbn [non_space_run]. destruct (isspace c) eqn:E; [constructor |].
  cbn. constructor; assumption.
Qed.

Lemma chars_app a b : chars (a ++ b) = (chars a ++ chars b)%list.
Proof.
  unfold chars. induction a as [|c r IH]; [reflexivity | cbn; now rewrite IH].
Qed.

Lemma before_last_colon_snoc g :
  before_last_colon (g ++ ":") = Some g.
Proof.
  induction g as [|c r IH]; [reflexivity |].
  cbn [append before_last_colon]. now rewrite IH.
Qed.

Lemma non_space_run_stop g rest :
  Forall (fun c => isspace c = false) (chars g) ->
  (rest = empty \/ exists c r, rest = String c r /\ isspace c = true) ->
  non_space_run (g ++ rest) = g.
Proof.
  intros Hg Hrest. induction g as [|c r IH].
  - cbn. destruct Hrest as [-> | (c & r & -> & Hc)]; [reflexivity |].
    cbn. now rewrite Hc.
  - inversion Hg as [|? ? Hc Hr]; subst. cbn. rewrite Hc. f_equal. now apply IH.
Qed.

(** X23: whatever [match_command] captures is a non-empty name that
    holds no whitespace and stands in the text between the leading slash and
    a colon. *)
Theorem match_command_sound text g :
  match_command text = Some g ->
  g <> empty
  /\ Forall (fun c => isspace c = false) (chars g)
  /\ exists rest, text = "/" ++ g ++ ":" ++ rest.
Proof.
  unfold match_command. destruct text as [|c r]; [discriminate |].
  destruct (Ascii.eqb c "/") eqn:Ec; [| discriminate].
  apply Ascii.eqb_eq in Ec. subst c.
  destruct (before_last_colon (non_space_run r)) as [[|d g']|] eqn:Eb; try discriminate.
  intros [= <-].
  destruct (before_last_colon_sound _ Eb) as [rest1 Hrun].
  destruct (non_space_run_prefix r) as [rest2 Hr].
  split; [discriminate | split].
  - pose proof (non_space_run_chars r) as Hc. rewrite Hrun, chars_app in Hc.
    apply Forall_app in Hc. exact (proj1 Hc).
  - exists (rest1 ++ rest2). rewrite Hr at 1. rewrite Hrun.
    cbn. f_equal. f_equal. now rewrite ServerFacts.append_assoc.
Qed.

Lemma match_command_sound_witness :
  match_command "/ban: player banned" = Some "ban"
  /\ exists rest, "/ban: player banned" = "/" ++ "ban" ++ ":" ++ rest.
Proof.
  assert (H : match_command "/ban: player banned" = Some "ban") by reflexivity.
  split; [exact H | exact (proj2 (proj2 (match_command_sound _ H)))].
Defined.

(** X24: the echo of a command is recognised: a slash, a non-empty name
    without whitespace, a colon, and then the end of the text or a
    whitespace character give that name (colons inside the name
    included). *)
Theorem match_command_complete g rest :
  g <> empty ->
  Forall (fun c => isspace c = false) (chars g) ->
  (rest = empty \/ exists c r, rest = String c r /\ isspace c = true) ->
  match_command ("/" ++ g ++ ":" ++ rest) = Some g.
Proof.
  intros Hne Hg Hrest. cbn [append match_command].
  change (Ascii.eqb "/" "/") with true. cbv iota.
  replace (g ++ String ":" rest) with ((g ++ ":") ++ rest)
    by (rewrite ServerFacts.append_assoc; reflexivity).
  rewrite non_space_run_stop; [| | exact Hrest].
  - rewrite before_last_colon_snoc.
    destruct g; [exfalso; apply Hne; reflexivity | reflexivity].
  - rewrite chars_app. apply Forall_app. split; [exact Hg |].
    repeat constructor.
Qed.

Lemma match_command_complete_witness :
  "tp" <> empty
  /\ match_command ("/" ++ "tp" ++ ":" ++ " teleported") = Some "tp".
Proof.
  assert (H1 : "tp" <> empty) by discriminate.
  split; [exact H1 |].
  apply (@match_command_complete "tp" " teleported" H1).
  - repeat constructor.
  - right. exists " "%char, "teleported". split; reflexivity.
Defined.

(** ** The store and the command list over a feed *)

Section Feed.
Variable json_loads : str -> option json_message.
Variable strftime : Z -> option str.

Lemma learn_command_commands text w :
  KNOWN_COMMANDS (fst (learn_command text w)) = KNOWN_COMMANDS w
  \/ exists c, match_command text = Some c /\ ~ In c (KNOWN_COMMANDS w)
               /\ KNOWN_COMMANDS (fst (learn_command text w))
                  = (KNOWN_COMMANDS w ++ [c])%list.
Proof.
  unfold learn_command. destruct (match_command text) as [c|]; [| now left].
  destruct (str_in c (KNOWN_COMMANDS w)) eqn:E; [now left |].
  right. exists c. repeat split. intros H. apply str_in_In in H. congruence.
Qed.

Lemma learn_command_known text w c :
  match_command text = Some c -> In c (KNOWN_COMMANDS (fst (learn_command text w))).
Proof.
  intros Hm. unfold learn_command. rewrite Hm.
  destruct (str_in c (KNOWN_COMMANDS w)) eqn:E.
  - now apply str_in_In.
  - cbn. apply in_or_app. right. now left.
Qed.

Lemma on_message_commands raw w :
  KNOWN_COMMANDS (after json_loads strftime raw w) = KNOWN_COMMANDS w
  \/ exists c, ~ In c (KNOWN_COMMANDS w)
               /\ KNOWN_COMMANDS (after json_loads strftime raw w)
                  = (KNOWN_COMMANDS w ++ [c])%list.
Proof.
  unfold after, on_message.
  destruct (json_loads raw) as [j|]; [| now left].
  destruct (timestampMillis j) as [ts|]; [| now left].
  destruct (ts <? latest_message w)%Z; [now left |].
  destruct (str_in raw (KNOWN_MESSAGES w)); [now left |].
  destruct (message j) as [text|]; [| now left].
  set (w1 := set_latest_message ts _).
  destruct (learn_command_commands text w1) as [H | (c & _ & Hn & H)].
  - left. destruct (learn_command text w1) as [w2 ev2]. cbn [fst] in H.
    destruct (format_message strftime j); cbn [fst]; exact H.
  - right. exists c. split; [exact Hn |].
    destruct (learn_command text w1) as [w2 ev2]. cbn [fst] in H.
    destruct (format_message strftime j); cbn [fst]; exact H.
Qed.

Lemma NoDup_snoc (A : Type) (l : list A) (x : A) :
  NoDup l -> ~ In x l -> NoDup (l ++ [x]).
Proof.
  intros Hl Hx. apply NoDup_app; [exact Hl | repeat constructor; intros [] | ].
  intros y Hy [<- | []]. contradiction.
Qed.

(** X25: [on_message] never makes the store of raw lines or the list of
    known commands hold an entry twice. *)
Theorem on_message_no_duplicates raw w :
  NoDup (KNOWN_MESSAGES w) -> NoDup (KNOWN_COMMANDS w) ->
  NoDup (KNOWN_MESSAGES (after json_loads strftime raw w))
  /\ NoDup (KNOWN_COMMANDS (after json_loads strftime raw w)).
Proof.
  intros Hm Hc. split.
  - destruct (on_message_store json_loads strftime raw w)
      as [[E _] | (j & ts & _ & _ & _ & Hn & Hk & _)].
    + now rewrite E.
    + rewrite Hk. now apply NoDup_snoc.
  - destruct (on_message_commands raw w) as [E | (c & Hn & E)]; rewrite E;
      [exact Hc | now apply NoDup_snoc].
Qed.

(** X26: when [on_message] stores a line whose text is the echo of a
    command, the name of that command is known afterwards, also when the
    line then fails to format or reaches no subscriber. *)
Theorem on_message_learns raw w j text c :
  json_loads raw = Some j -> message j = Some text ->
  match_command text = Some c ->
  KNOWN_MESSAGES (after json_loads strftime raw w) <> KNOWN_MESSAGES w ->
  In c (KNOWN_COMMANDS (after json_loads strftime raw w)).
Proof.
  intros Ej Em Hc Hst. unfold after, on_message in *. rewrite Ej in *.
  destruct (timestampMillis j) as [ts|]; [| now elim Hst].
  destruct (ts <? latest_message w)%Z; [now elim Hst |].
  destruct (str_in raw (KNOWN_MESSAGES w)); [now elim Hst |].
  rewrite Em in *.
  set (w1 := set_latest_message ts _) in *.
  pose proof (learn_command_known text w1 Hc) as H.
  destruct (learn_command text w1) as [w2 ev2]. cbn [fst] in H.
  destruct (format_message strftime j); cbn [fst]; exact H.
Qed.

(** X27: over a whole feed, no raw line reaches the subscribers twice;
    every line that reaches them was not stored before the feed and is
    stored after it; the high-water mark never goes down; and the store only
    grows at its end. *)
Theorem on_messages_at_most_once raws : forall w,
  let w' := fst (on_messages json_loads strftime raws w) in
  let sent := snd (on_messages json_loads strftime raws w) in
  NoDup sent
  /\ Forall (fun r => ~ In r (KNOWN_MESSAGES w) /\ In r (KNOWN_MESSAGES w')) sent
  /\ (latest_message w <= latest_message w')%Z
  /\ exists added, KNOWN_MESSAGES w' = (KNOWN_MESSAGES w ++ added)%list.
Proof.
  induction raws as [|raw rest IH]; intros w; cbv zeta.
  - cbn. repeat split; [constructor | constructor | lia | exists []; now rewrite app_nil_r].
  - cbn [on_messages].
    specialize (IH (after json_loads strftime raw w)). cbv zeta in IH.
    destruct IH as (Hnd & Hall & Hle & added & Hadd).
    pose proof (on_message_store json_loads strftime raw w) as Hst.
    unfold after in *.
    destruct (on_message json_loads strftime raw w) as [[w1 ev] r]. cbn [fst snd] in *.
    destruct (on_messages json_loads strftime rest w1) as [w2 sent']. cbn [fst snd] in *.
    destruct Hst as [[E Hno] | (j & ts & _ & _ & Hlt & Hn & Hk & Hl)].
    + subst w1.
      assert (Hr : match r with FansOut _ => raw :: sent' | _ => sent' end = sent').
      { destruct r; try reflexivity. exfalso. now apply (Hno formatted). }
      rewrite Hr. repeat split; auto. now exists added.
    + assert (Hsub : forall x, In x (KNOWN_MESSAGES w) -> In x (KNOWN_MESSAGES w1)).
      { intros x Hx. rewrite Hk. apply in_or_app. now left. }
      assert (Hraw1 : In raw (KNOWN_MESSAGES w1)).
      { rewrite Hk. apply in_or_app. right. now left. }
      assert (Hall' : Forall (fun r0 => ~ In r0 (KNOWN_MESSAGES w)
                                       /\ In r0 (KNOWN_MESSAGES w2)) sent').
      { eapply Forall_impl; [| exact Hall]. intros x [Hx1 Hx2]. split; auto. }
      assert (Hadd' : exists added0,
                 KNOWN_MESSAGES w2 = (KNOWN_MESSAGES w ++ added0)%list).
      { exists ([raw] ++ added)%list. rewrite Hadd, Hk. now rewrite <- app_assoc. }
      assert (Hle' : (latest_message w <= latest_message w2)%Z) by lia.
      destruct r; repeat split; auto.
      * constructor; [| exact Hnd]. intros Hin.
        rewrite Forall_forall in Hall. destruct (Hall _ Hin) as [Hx _]. contradiction.
      * constructor; [| exact Hall']. split; [exact Hn |].
        rewrite Hadd. apply in_or_app. now left.
Qed.
End Feed.

Lemma on_message_no_duplicates_witness :
  NoDup (KNOWN_MESSAGES init) /\ NoDup (KNOWN_COMMANDS init)
  /\ NoDup (KNOWN_COMMANDS after_ban_line).
Proof.
  assert (Hm : NoDup (KNOWN_MESSAGES init)) by constructor.
  assert (Hc : NoDup (KNOWN_COMMANDS init))
    by (constructor; [intros [] | constructor]).
  split; [exact Hm | split; [exact Hc |]].
  exact (proj2 (@on_message_no_duplicates loads_ban_line strftime_epoch
                  ban_line init Hm Hc)).
Defined.

Lemma on_message_learns_witness :
  loads_ban_line ban_line
  = Some (mkJson (Some 100%Z) (Some "INFO") (Some "/ban: player banned"))
  /\ match_command "/ban: player banned" = Some "ban"
  /\ KNOWN_MESSAGES after_ban_line <> KNOWN_MESSAGES init
  /\ In "ban" (KNOWN_COMMANDS after_ban_line).
Proof.
  assert (Hj : loads_ban_line ban_line
               = Some (mkJson (Some 100%Z) (Some "INFO") (Some "/ban: player banned")))
    by reflexivity.
  assert (Hc : match_command "/ban: player banned" = Some "ban") by reflexivity.
  assert (Hs : KNOWN_MESSAGES (after loads_ban_line strftime_epoch ban_line init)
               <> KNOWN_MESSAGES init) by discriminate.
  split; [exact Hj | split; [exact Hc | split; [exact Hs |]]].
  exact (@on_message_learns loads_ban_line strftime_epoch ban_line init _ _ _
           Hj eq_refl Hc Hs).
Defined.

End McFacts.

(** * Properties of the loop over the subscribers *)

Module FanOutFacts.
Import Py FanOut.

Section Hooks.
Variable faulty : nat -> bool.
Variable preempt : round -> bool.

Lemma in_opt_list (A : Type) (o : option A) (x : A) :
  In x (opt_list o) <-> o = Some x.
Proof.
  destruct o as [y|]; simpl; split; try tauto; try discriminate.
  - intros [-> | []]. reflexivity.
  - intros [= ->]. now left.
Qed.

Lemma wrapper_step_bound k r r' :
  wrapper_step faulty k r = Some r' -> k < List.length (wrappers r).
Proof.
  unfold wrapper_step. intros H. apply nth_error_Some.
  destruct (nth_error (wrappers r) k); [discriminate | discriminate H].
Qed.

(** [successors] lists exactly the rounds one step away. *)
Lemma step_successors r r' :
  step faulty preempt r r' <-> In r' (successors faulty preempt r).
Proof.
  unfold successors. rewrite in_app_iff. split.
  - intros [H | k Hp H].
    + left. now apply in_opt_list.
    + right. rewrite Hp. apply in_flat_map. exists k.
      split; [| now apply in_opt_list].
      apply in_seq. pose proof (wrapper_step_bound _ _ H). lia.
  - intros [H | H].
    + apply step_loop. now apply in_opt_list.
    + destruct (preempt r) eqn:Hp; [| destruct H].
      apply in_flat_map in H. destruct H as [k [_ H]].
      apply (@step_wrapper faulty preempt r r' k Hp). now apply in_opt_list.
Qed.

Lemma settled_quiescent r :
  settled faulty preempt r = true -> quiescent faulty preempt r.
Proof.
  unfold settled. intros H r' Hs. apply step_successors in Hs.
  destruct (successors faulty preempt r); [exact Hs | discriminate].
Qed.

Lemma play_run sched : forall r r',
  play faulty preempt sched r = Some r' -> run faulty preempt r r'.
Proof.
  induction sched as [|[k|] rest IH]; intros r r' H; simpl in H.
  - injection H as <-. constructor.
  - destruct (preempt r) eqn:Hp; [| discriminate].
    destruct (wrapper_step faulty k r) as [r1|] eqn:E; [| discriminate].
    eapply run_step; [eapply step_wrapper; eassumption | now apply IH].
  - destruct (loop_step r) as [r1|] eqn:E; [| discriminate].
    eapply run_step; [apply step_loop; exact E | now apply IH].
Qed.

(** If every round listed by [outcomes] is at rest, the list holds every
    round in which a run can come to rest. *)
Lemma outcomes_complete fuel : forall r r',
  forallb (settled faulty preempt) (outcomes faulty preempt fuel r) = true ->
  run faulty preempt r r' -> quiescent faulty preempt r' ->
  In r' (outcomes faulty preempt fuel r).
Proof.
  assert (Hrest : forall r r',
             settled faulty preempt r = true -> run faulty preempt r r' -> r' = r).
  { intros r r' Hs Hr. destruct Hr as [| r1 r' Hstep _]; [reflexivity |].
    exfalso. pose proof (settled_quiescent Hs) as Hq0. exact (Hq0 _ Hstep). }
  induction fuel as [|f IH]; intros r r' Hall Hrun Hq.
  - simpl in *. left. symmetry. apply Hrest; [| exact Hrun].
    now rewrite andb_true_r in Hall.
  - cbn [outcomes] in *.
    destruct (successors faulty preempt r) as [|s0 ss] eqn:Es.
    + left. symmetry. apply Hrest; [| exact Hrun].
      unfold settled. now rewrite Es.
    + destruct Hrun as [| r1 r' Hstep Hrun].
      * exfalso. apply (Hq s0). apply step_successors. rewrite Es. now left.
      * apply step_successors in Hstep. rewrite Es in Hstep.
        apply in_flat_map. exists r1. split; [exact Hstep |].
        apply IH; [| exact Hrun | exact Hq].
        rewrite forallb_forall in Hall. apply forallb_forall.
        intros x Hx. apply Hall. apply in_flat_map. now exists r1.
Qed.
End Hooks.

(** C4 (evaluation of the code): two subscribers, the first of which has
    a hook that raises.  As long as threads are not switched inside the
    header of the loop, the round never ends with subscriber 0 removed,
    subscriber 1 registered and the line rendered by subscriber 1,
    however the threads interleave otherwise.  If the handler runs before
    the loop moves on, removing entry 0 shifts entry 1 under the iterator
    and no thread is started for it; if it runs later, [callback] already
    names subscriber 1 and that one is removed; if the thread reads
    [callback] late, the faulty hook is never called. *)
Theorem faulty_first_never_isolated (r : round) :
  run zero_faulty outside_header (start [0; 1]) r ->
  quiescent zero_faulty outside_header r ->
  isolated [0; 1] 0 r = false.
Proof.
  intros Hrun Hq.
  assert (Hin : In r (outcomes zero_faulty outside_header 14 (start [0; 1]))).
  { apply outcomes_complete; [vm_compute; reflexivity | exact Hrun | exact Hq]. }
  assert (Hall : forallb (fun x => negb (isolated [0; 1] 0 x))
                         (outcomes zero_faulty outside_header 14 (start [0; 1])) = true)
    by (vm_compute; reflexivity).
  rewrite forallb_forall in Hall. apply Hall in Hin.
  now apply negb_true_iff in Hin.
Qed.

Lemma faulty_first_never_isolated_witness :
  exists r,
    play zero_faulty outside_header eager_two (start [0; 1]) = Some r
    /\ registry r = [1] /\ rendered r = []
    /\ isolated [0; 1] 0 r = false.
Proof.
  destruct (play zero_faulty outside_header eager_two (start [0; 1])) as [r|] eqn:E;
    [| discriminate E].
  exists r. split; [reflexivity |].
  assert (Er : r = mkRound [1] (Some 0) None None [Finished] [] []).
  { vm_compute in E. now injection E as <-. }
  split; [now rewrite Er | split; [now rewrite Er |]].
  apply (@faulty_first_never_isolated r).
  - apply (play_run zero_faulty outside_header eager_two). exact E.
  - apply settled_quiescent. rewrite Er. reflexivity.
Defined.

(** With threads switched anywhere, the run in which every thread runs to
    its end as soon as it is started still ends with subscriber 1 never
    called. *)
Lemma faulty_first_eager_skips :
  exists r,
    run zero_faulty anywhere (start [0; 1]) r
    /\ quiescent zero_faulty anywhere r
    /\ registry r = [1] /\ rendered r = [].
Proof.
  exists (mkRound [1] (Some 0) None None [Finished] [] []).
  split; [| split; [| split; reflexivity]].
  - apply (play_run zero_faulty anywhere eager_two). reflexivity.
  - apply settled_quiescent. reflexivity.
Qed.

(** The one way the round can end as the contract asks, with the faulty
    subscriber first: the handler runs inside the header of the loop,
    after the iterator has yielded subscriber 1 and before [callback] is
    bound to it. *)
Lemma faulty_first_isolated_by_race :
  exists r,
    run zero_faulty anywhere (start [0; 1]) r
    /\ quiescent zero_faulty anywhere r
    /\ isolated [0; 1] 0 r = true.
Proof.
  exists (mkRound [1] (Some 1) None None [Finished; Finished] [] [1]).
  split; [| split; [| reflexivity]].
  - apply (play_run zero_faulty anywhere racing_two). reflexivity.
  - apply settled_quiescent. reflexivity.
Qed.

(** The same two subscribers in the other order: here the threads can
    interleave so that the round ends as the contract asks. *)
Lemma faulty_last_can_isolate :
  exists r,
    run zero_faulty outside_header (start [1; 0]) r
    /\ quiescent zero_faulty outside_header r
    /\ isolated [1; 0] 0 r = true.
Proof.
  exists (mkRound [1] (Some 0) None None [Finished; Finished] [] [1]).
  split; [| split; [| reflexivity]].
  - apply (play_run zero_faulty outside_header eager_faulty_last). reflexivity.
  - apply settled_quiescent. reflexivity.
Qed.

(** ** What a round never does *)

Section Rounds.
Variable faulty : nat -> bool.
Variable preempt : round -> bool.

(** What every step keeps, a run keeps. *)
Lemma run_preserves (I : round -> Prop) :
  (forall a b, step faulty preempt a b -> I a -> I b) ->
  forall a b, run faulty preempt a b -> I a -> I b.
Proof.
  intros Hstep a b Hrun. induction Hrun as [| a a1 b Hs _ IH]; [auto |].
  intros Ha. apply IH. eapply Hstep; eauto.
Qed.

Lemma remove_incl (x : nat) l l' : remove Nat.eqb x l = Some l' -> incl l' l.
Proof.
  revert l'. induction l as [|y r IH]; intros l'; cbn [remove]; [discriminate |].
  destruct (Nat.eqb x y).
  - intros [= <-]. apply incl_tl, incl_refl.
  - destruct (remove Nat.eqb x r) as [r'|]; [| discriminate].
    intros [= <-]. apply incl_cons; [now left |].
    apply incl_tl. now apply IH.
Qed.

Lemma step_within subs r r' :
  step faulty preempt r r' -> within subs r -> within subs r'.
Proof.
  intros Hs (Hreg & Hcb & Hf & Hren).
  destruct Hs as [H | k _ H].
  - unfold loop_step, fetch_step, rebind_step in H.
    destruct (fetched r) as [c|] eqn:Ef.
    + injection H as <-. repeat split; cbn; auto; try discriminate.
    + destruct (cursor r) as [i|]; [| discriminate].
      destruct (nth_error (registry r) i) as [c|] eqn:En; injection H as <-;
        repeat split; cbn; auto; try discriminate;
        try (intros c0 [= <-]; apply Hreg; eapply nth_error_In; eauto).
  - unfold wrapper_step in H.
    destruct (nth_error (wrappers r) k) as [[| c | c | | |]|]; try discriminate.
    + destruct (callback r); [| discriminate]. injection H as <-. repeat split; auto.
    + destruct (existsb _ _); [discriminate |]. injection H as <-. repeat split; auto.
    + destruct (callback r) as [c'|] eqn:Ec; [| discriminate].
      destruct (faulty c'); injection H as <-; repeat split; auto.
      cbn. apply incl_app; [exact Hren |]. intros x [<- | []]. now apply Hcb.
    + destruct (callback r) as [c|]; [| discriminate].
      destruct (remove Nat.eqb c (registry r)) as [l|] eqn:Er; injection H as <-;
        repeat split; auto.
      cbn. eapply incl_tran; [eapply remove_incl; eauto | exact Hreg].
Qed.

(** X28: however the threads interleave and whichever hooks raise, a
    round never adds a subscriber to the registry and never renders the line
    for anyone who was not subscribed when it started. *)
Theorem run_within subs r :
  run faulty preempt (start subs) r ->
  incl (registry r) subs /\ incl (rendered r) subs.
Proof.
  intros Hrun.
  assert (H : within subs r).
  { apply (run_preserves (within subs) (@step_within subs) Hrun).
    repeat split; cbn; try discriminate; [apply incl_refl | intros x []]. }
  destruct H as (H1 & _ & _ & H2). now split.
Qed.
End Rounds.

Section NoFault.
Variable preempt : round -> bool.

Lemma Forall_firstn_skipn (A : Type) (P : A -> Prop) n (l : list A) :
  Forall P l -> Forall P (firstn n l) /\ Forall P (skipn n l).
Proof.
  intros H. rewrite <- (firstn_skipn n l) in H. now apply Forall_app in H.
Qed.

Lemma set_wrapper_Forall (P : wrapper -> Prop) k t l :
  Forall P l -> P t -> Forall P (set_wrapper k t l).
Proof.
  intros Hl Ht. unfold set_wrapper. apply Forall_app. split.
  - exact (proj1 (Forall_firstn_skipn k Hl)).
  - constructor; [exact Ht | exact (proj2 (Forall_firstn_skipn (S k) Hl))].
Qed.

Lemma step_calm subs r r' :
  step no_faulty preempt r r' -> calm subs r -> calm subs r'.
Proof.
  intros Hs [Hreg Hw].
  destruct Hs as [H | k _ H].
  - unfold loop_step, fetch_step, rebind_step in H.
    destruct (fetched r) as [c|].
    + injection H as <-. split; [exact Hreg |]. cbn.
      apply Forall_app. split; [exact Hw | repeat constructor].
    + destruct (cursor r) as [i|]; [| discriminate].
      destruct (nth_error (registry r) i); injection H as <-; split; auto.
  - unfold wrapper_step in H.
    destruct (nth_error (wrappers r) k) as [t|] eqn:En; [| discriminate].
    assert (Ht : in_handler t = false).
    { rewrite Forall_forall in Hw. apply Hw. eapply nth_error_In; eauto. }
    destruct t as [| c | c | | |]; try discriminate.
    + destruct (callback r); [| discriminate]. injection H as <-.
      split; [exact Hreg |]. cbn. now apply set_wrapper_Forall.
    + destruct (existsb _ _); [discriminate |]. injection H as <-.
      split; [exact Hreg |]. cbn. now apply set_wrapper_Forall.
    + destruct (callback r) as [c'|]; [| discriminate].
      unfold no_faulty in H. injection H as <-.
      split; [exact Hreg |]. cbn. now apply set_wrapper_Forall.
Qed.

(** X29: when no hook raises, a round leaves the registry exactly as it
    was, however the threads interleave. *)
Theorem no_fault_registry_unchanged subs r :
  run no_faulty preempt (start subs) r -> registry r = subs.
Proof.
  intros Hrun.
  assert (H : calm subs r).
  { apply (run_preserves (calm subs) (@step_calm subs) Hrun).
    split; [reflexivity | constructor]. }
  exact (proj1 H).
Qed.
End NoFault.

Lemma run_within_witness :
  exists r,
    run zero_faulty anywhere (start [0; 1]) r
    /\ registry r = [1] /\ rendered r = [1]
    /\ incl (registry r) [0; 1] /\ incl (rendered r) [0; 1].
Proof.
  exists (mkRound [1] (Some 1) None None [Finished; Finished] [] [1]).
  assert (H : run zero_faulty anywhere (start [0; 1])
                (mkRound [1] (Some 1) None None [Finished; Finished] [] [1]))
    by (apply (play_run zero_faulty anywhere racing_two); reflexivity).
  split; [exact H | split; [reflexivity | split; [reflexivity |]]].
  exact (@run_within zero_faulty anywhere [0; 1] _ H).
Defined.

Lemma no_fault_registry_unchanged_witness :
  exists r,
    run no_faulty outside_header (start [0; 1]) r
    /\ rendered r = [1; 1] /\ registry r = [0; 1].
Proof.
  exists (mkRound [0; 1] (Some 1) None None [Finished; Finished] [] [1; 1]).
  assert (H : run no_faulty outside_header (start [0; 1])
                (mkRound [0; 1] (Some 1) None None [Finished; Finished] [] [1; 1]))
    by (apply (play_run no_faulty outside_header late_two); reflexivity).
  split; [exact H | split; [reflexivity |]].
  exact (@no_fault_registry_unchanged outside_header [0; 1] _ H).
Defined.

Lemma release_self (c : nat) : release c [c] = [].
Proof. unfold release. cbn [remove]. now rewrite Nat.eqb_refl. Qed.

(** X30: even when no hook raises, a subscriber can be passed over: with
    two subscribers, and without any thread switch inside the loop header,
    there is a run to the end in which the thread started for the first
    reads [callback] after the loop has moved on, so that the second renders
    the line twice and the first never, both staying registered. *)
Theorem no_fault_can_skip a b :
  a <> b ->
  exists r,
    run no_faulty outside_header (start [a; b]) r
    /\ quiescent no_faulty outside_header r
    /\ registry r = [a; b]
    /\ rendered r = [b; b]
    /\ ~ In a (rendered r).
Proof.
  intros Hab.
  exists (mkRound [a; b] (Some b) None None [Finished; Finished] [] [b; b]).
  split; [| split; [| split; [reflexivity | split; [reflexivity |]]]].
  - apply (play_run no_faulty outside_header late_two).
    cbn. rewrite !release_self. cbn. rewrite ?release_self. reflexivity.
  - apply settled_quiescent. reflexivity.
  - cbn. intros [H | [H | []]]; congruence.
Qed.

Lemma no_fault_can_skip_witness :
  0 <> 1
  /\ exists r,
       run no_faulty outside_header (start [0; 1]) r
       /\ quiescent no_faulty outside_header r
       /\ ~ In 0 (rendered r).
Proof.
  assert (H : 0 <> 1) by discriminate.
  split; [exact H |].
  destruct (@no_fault_can_skip 0 1 H) as (r & H1 & H2 & _ & _ & H5).
  exists r. split; [exact H1 | split; [exact H2 | exact H5]].
Defined.

End FanOutFacts.
